(** * Epistemic–Infrastructural Diagram Editor: configuration model,
      serialization, circular layout and graph builder

    A shallow embedding of [epistemic_infrastructure_app.py].

    - Python [str] values are Rocq strings holding the UTF-8 bytes of the
      text; the arrow of the cross-link syntax is the three-byte string
      of U+2192.
    - Python [int] is [Z]; list indices go through [Z] so that [%] has
      Python's sign convention ([Z.modulo]).
    - A [dict] keyed by node names is a [gmap string _]; a JSON object as
      [json.loads] returns it is an association list.
    - Exceptions are values of [exn] carried by [result].
    - [float] arithmetic is kept behind the interface [Arith]; [int(_)]
      is truncation toward zero of the float's real value, and the
      conversion of an [int] operand to a float raises [OverflowError]
      for an integer beyond the doubles.
    - The [json] library is kept behind the interface [Codec]; the
      rendering library is the list of node and edge records it
      accumulates.
    - A text field of the page is a function of its label and of the
      value it is offered; the fields created in a run are recorded,
      since a field that repeats an earlier one stops the run. *)

From Stdlib Require Import ZArith String Ascii List Reals Lra Lia QArith.
From stdpp Require Import base option list gmap strings.

#[local] Set Warnings "-clear-no-such-hyp".

Local Open Scope string_scope.
Local Open Scope list_scope.
Local Open Scope nat_scope.

(** ** Exceptions *)

Inductive exn :=
  | KeyError (key : string)
  | IndexError
  | TypeError
  | AttributeError
  | ValueError
  | AssertionError
  | OverflowError
  | DuplicateWidgetID
  | JSONDecodeError.

Inductive result (A : Type) :=
  | Ok (a : A)
  | Raise (e : exn).
Arguments Ok {A} a.
Arguments Raise {A} e.

Definition is_Ok {A} (r : result A) : Prop := ∃ a, r = Ok a.
Definition raises {A} (r : result A) : Prop := ∃ e, r = Raise e.

Definition rbind {A B} (f : A → result B) (r : result A) : result B :=
  match r with
  | Ok a => f a
  | Raise e => Raise e
  end.

#[global] Instance result_bind : MBind result := λ A B f r, rbind f r.
#[global] Instance result_ret : MRet result := λ A a, Ok a.

(** A [for] loop whose body may raise: the accumulator is threaded from
    left to right and the first exception aborts the loop. *)
Fixpoint foldM {A X} (body : A → X → result A) (acc : A) (xs : list X)
  : result A :=
  match xs with
  | [] => Ok acc
  | x :: xs' => acc' ← body acc x ; foldM body acc' xs'
  end.

(** A list comprehension whose element expression may raise. *)
Fixpoint mapM_r {X Y} (f : X → result Y) (xs : list X) : result (list Y) :=
  match xs with
  | [] => Ok []
  | x :: xs' => y ← f x ; ys ← mapM_r f xs' ; Ok (y :: ys)
  end.

(** [enumerate(xs)], counting from [k]. *)
Fixpoint enumerate_from {X} (k : nat) (xs : list X) : list (nat * X) :=
  match xs with
  | [] => []
  | x :: xs' => (k, x) :: enumerate_from (S k) xs'
  end.
Definition enumerate {X} (xs : list X) : list (nat * X) := enumerate_from 0 xs.

(** [xs[i]] for a Python [int] index: a negative index counts from the
    end. *)
Definition list_getitem {X} (xs : list X) (i : Z) : result X :=
  let j := if bool_decide (0 ≤ i)%Z then i else (Z.of_nat (length xs) + i)%Z in
  if bool_decide (0 ≤ j)%Z then
    match xs !! Z.to_nat j with
    | Some x => Ok x
    | None => Raise IndexError
    end
  else Raise IndexError.

(** ** Python string operations *)

Module PyStr.

(** [s.startswith(p)], returning the rest of [s]. *)
Fixpoint strip_prefix (p s : string) : option string :=
  match p, s with
  | EmptyString, _ => Some s
  | String a p', String b s' =>
      if Ascii.eqb a b then strip_prefix p' s' else None
  | String _ _, EmptyString => None
  end.

(** [s.partition(sep)] at the first occurrence of [sep]: the text
    before it and the text after it. *)
Fixpoint partition (sep s : string) : option (string * string) :=
  match strip_prefix sep s with
  | Some rest => Some ("", rest)
  | None =>
      match s with
      | EmptyString => None
      | String c s' =>
          match partition sep s' with
          | Some (a, b) => Some (String c a, b)
          | None => None
          end
      end
  end.

(** [sep in s] *)
Definition contains (sep s : string) : bool :=
  match partition sep s with Some _ => true | None => false end.

(** [s.split(sep, 1)] *)
Definition split1 (sep s : string) : list string :=
  match partition sep s with
  | Some (a, b) => [a; b]
  | None => [s]
  end.

(** [s.split(",")]: split at every comma; never the empty list. *)
Fixpoint split_comma (s : string) : list string :=
  match s with
  | EmptyString => [""]
  | String c s' =>
      if Ascii.eqb c ","%char then "" :: split_comma s'
      else match split_comma s' with
           | h :: t => String c h :: t
           | [] => [String c ""]
           end
  end.

(** A byte [10xxxxxx] continues the code point begun before it. *)
Definition is_cont (c : ascii) : bool :=
  let n := N_of_ascii c in ((128 <=? n) && (n <? 192))%N.

Definition starts_cont (s : string) : bool :=
  match s with String c _ => is_cont c | EmptyString => false end.

(** The characters of a [str], each as the string of its bytes:
    what iterating over the string yields. *)
Fixpoint chars (s : string) : list string :=
  match s with
  | EmptyString => []
  | String c s' =>
      if starts_cont s' then
        match chars s' with
        | h :: t => String c h :: t
        | [] => [String c ""]
        end
      else String c "" :: chars s'
  end.

(** UTF-8 bytes of a code point below U+10000. *)
Definition utf8 (cp : N) : string :=
  let b n := ascii_of_N n in
  if (cp <? 128)%N then String (b cp) ""
  else if (cp <? 2048)%N then
    String (b (192 + cp / 64)%N) (String (b (128 + cp mod 64)%N) "")
  else
    String (b (224 + cp / 4096)%N)
      (String (b (128 + (cp / 64) mod 64)%N)
         (String (b (128 + cp mod 64)%N) "")).

(** The code points for which [str.isspace()] holds. *)
Definition whitespace : list N :=
  [9; 10; 11; 12; 13; 28; 29; 30; 31; 32; 133; 160; 5760;
   8192; 8193; 8194; 8195; 8196; 8197; 8198; 8199; 8200; 8201; 8202;
   8232; 8233; 8239; 8287; 12288]%N.

Definition is_space (ch : string) : bool :=
  existsb (λ cp, String.eqb (utf8 cp) ch) whitespace.

Fixpoint drop_spaces (cs : list string) : list string :=
  match cs with
  | [] => []
  | c :: cs' => if is_space c then drop_spaces cs' else cs
  end.

Definition join (cs : list string) : string :=
  fold_right String.append "" cs.

(** [s.strip()] *)
Definition strip (s : string) : string :=
  join (rev (drop_spaces (rev (drop_spaces (chars s))))).

(** Truthiness of a [str]: non-empty. *)
Definition truthy (s : string) : bool :=
  match s with EmptyString => false | _ => true end.

End PyStr.

(** ** Data model *)

Record Edge := mkEdge {
  source : string;
  target : string;
  label : string
}.

Record DiagramConfig := mkConfig {
  inner_nodes : list string;
  inner_labels : gmap string string;
  inner_edges : list Edge;
  outer_nodes : list string;
  outer_labels : gmap string string;
  outer_edges : list Edge;
  cross_links : list (string * string);   (* (outer -> inner) *)
  show_cross_links : bool;
  lock_positions : bool;
  inner_radius : Z;
  outer_radius : Z;
  start_angle_deg : Z;
  physics : bool
}.

(** [[(o,i) for o in outer for i in inner]] *)
Definition cartesian (outer inner : list string) : list (string * string) :=
  o ← outer; i ← inner; [(o, i)].

Definition default_inner_nodes : list string :=
  ["Knowledge"; "Models"; "Data"; "Objects"; "Interactions"].

Definition default_outer_nodes : list string :=
  ["Concepts"; "Standards"; "Metadata"; "Formats"; "Protocols"].

Definition nl : string := String (ascii_of_nat 10) "".

Definition default_config : DiagramConfig :=
  let inner_nodes := default_inner_nodes in
  let inner_labels : gmap string string :=
    list_to_map
      [("Knowledge", "Knowledge");
       ("Models", "Models" +:+ nl +:+ "(representing the world)");
       ("Data", "Data");
       ("Objects", "Objects");
       ("Interactions", "Interactions" +:+ nl +:+ "with the world")] in
  let inner_edges :=
    [mkEdge "Models" "Knowledge" "Interpreted as";
     mkEdge "Data" "Models" "Ordered as";
     mkEdge "Objects" "Data" "Processed as";
     mkEdge "Interactions" "Objects" "Produce";
     mkEdge "Knowledge" "Interactions" "Informs further"] in
  let outer_nodes := default_outer_nodes in
  let outer_labels : gmap string string :=
    list_to_map
      [("Concepts", "Concepts");
       ("Standards", "Schema/" +:+ nl +:+ "Standards");
       ("Metadata", "Metadata");
       ("Formats", "Formats");
       ("Protocols", "Protocols")] in
  let outer_edges :=
    [mkEdge "Concepts" "Standards" "";
     mkEdge "Standards" "Metadata" "";
     mkEdge "Metadata" "Formats" "";
     mkEdge "Formats" "Protocols" "";
     mkEdge "Protocols" "Concepts" ""] in
  let cross_links := cartesian outer_nodes inner_nodes in
  {| inner_nodes := inner_nodes;
     inner_labels := inner_labels;
     inner_edges := inner_edges;
     outer_nodes := outer_nodes;
     outer_labels := outer_labels;
     outer_edges := outer_edges;
     cross_links := cross_links;
     show_cross_links := true;
     lock_positions := true;
     inner_radius := 200;
     outer_radius := 380;
     start_angle_deg := 90;
     physics := false |}.

(** ** Float arithmetic

    [math.radians], [math.cos], [math.sin] and the float operators come
    from the platform's C library; they are kept abstract.  [to_real]
    is the real number a (finite) float denotes, and [int(f)] is that
    number truncated toward zero.

    An [int] operand of a float operator is first converted to a float.
    The conversion raises [OverflowError] for an integer that does not
    round to a finite double, that is, from [2^1024 - 2^970] upward in
    magnitude; [of_int] is the conversion where it succeeds.  The
    layout divides by the number of names only inside the loop over the
    names, and the quotient stays below 360 in magnitude, so [truediv]
    is only met where [/] returns; a product of a converted radius by a
    cosine or a sine is finite, so [int(_)] is only met where it
    returns. *)

Class Arith := {
  flt : Type;
  of_int : Z → flt;            (* the float nearest to an int in range *)
  truediv : Z → Z → flt;       (* [a / b] on two ints *)
  fadd : flt → flt → flt;
  fmul : flt → flt → flt;
  radians : flt → flt;
  fcos : flt → flt;
  fsin : flt → flt;
  to_real : flt → R
}.

(** Truncation toward zero. *)
Definition Rtrunc (r : R) : Z :=
  if Rle_dec 0 r then Int_part r else (- Int_part (- r))%Z.

(** [int(f)] *)
Definition to_int `{Arith} (f : flt) : Z := Rtrunc (to_real f).

(** Exact real arithmetic as an instance. *)
#[global] Instance real_arith : Arith := {|
  flt := R;
  of_int := IZR;
  truediv := λ a b, (IZR a / IZR b)%R;
  fadd := Rplus;
  fmul := Rmult;
  radians := λ d, (d * (PI / 180))%R;
  fcos := cos;
  fsin := sin;
  to_real := λ r, r
|}.

(** The first magnitude that rounds to [2^1024]. *)
Definition float_limit : Z := 2 ^ 1024 - 2 ^ 970.

(** The integers that have a float. *)
Definition fits_float (n : Z) : Prop := (Z.abs n < float_limit)%Z.

#[global] Instance fits_float_dec n : Decision (fits_float n).
Proof. unfold fits_float. apply _. Defined.

(** The conversion of an [int] operand of [+] or [*] whose other
    operand is a float. *)
Definition float_of_int `{Arith} (n : Z) : result flt :=
  if bool_decide (fits_float n) then Ok (of_int n) else Raise OverflowError.

(** ** Layout *)

Section Layout.
Context `{Arith}.

(** The angle of the loop body, for index [i] of [n] names:
    [start_angle_deg] is converted for the addition. *)
Definition angle (clockwise : bool) (start_angle_deg : Z) (i n : nat)
  : result flt :=
  let turn := truediv ((if clockwise then -360 else 360) * Z.of_nat i)
                      (Z.of_nat n) in
  s ← float_of_int start_angle_deg;
  Ok (radians (fadd s turn)).

(** The pair [(x, y)] of the loop body: [radius] is converted for each
    of the two products. *)
Definition point (radius : Z) (clockwise : bool) (start_angle_deg : Z)
    (i n : nat) : result (Z * Z) :=
  ang ← angle clockwise start_angle_deg i n;
  rx ← float_of_int radius;
  let x := to_int (fmul rx (fcos ang)) in
  ry ← float_of_int radius;
  let y := to_int (fmul ry (fsin ang)) in
  Ok (x, y).

Definition circle_positions (names : list string) (radius : Z)
    (clockwise : bool) (start_angle_deg : Z) : result (gmap string (Z * Z)) :=
  let n := length names in
  foldM (λ (pos : gmap string (Z * Z)) '(i, name),
           xy ← point radius clockwise start_angle_deg i n;
           Ok (<[name := xy]> pos))
        ∅ (enumerate names).

End Layout.

(** ** The rendering library's network

    [pyvis.network.Network] is an external collaborator.  It is modelled
    as the node and edge records it accumulates: [add_node] replaces an
    empty label by the node id and registers an id once (a second
    registration of the same id is ignored), [add_edge] asserts that
    both endpoints are registered and, the network being directed,
    appends the edge. *)

Record VisNode := mkVisNode {
  n_id : string;
  n_label : string;
  n_x : Z;
  n_y : Z;
  n_physics : bool;
  n_shape : string;
  n_borderWidth : Z;
  n_opacity : option Q;
  n_font_face : string;
  n_font_bold : bool
}.

Record VisEdge := mkVisEdge {
  e_from : string;
  e_to : string;
  e_label : option string;
  e_arrows : string;
  e_dashes : option bool;
  e_color : option string;
  e_smooth : bool
}.

Record Network := mkNetwork {
  net_height : string;
  net_width : string;
  net_directed : bool;
  net_notebook : bool;
  net_cdn_resources : string;
  net_physics : bool;
  net_nodes : list VisNode;
  net_edges : list VisEdge
}.

Definition new_network (height width : string) (directed notebook : bool)
    (cdn_resources : string) : Network :=
  mkNetwork height width directed notebook cdn_resources true [] [].

Definition toggle_physics (status : bool) (net : Network) : Network :=
  mkNetwork (net_height net) (net_width net) (net_directed net)
    (net_notebook net) (net_cdn_resources net) status
    (net_nodes net) (net_edges net).

Definition node_ids (net : Network) : list string := n_id <$> net_nodes net.

(** The record stored for a call [add_node(n_id, label=..., ...)]:
    [node_label = label if label else n_id]. *)
Definition stored_node (nd : VisNode) : VisNode :=
  let node_label := if PyStr.truthy (n_label nd) then n_label nd
                    else n_id nd in
  mkVisNode (n_id nd) node_label (n_x nd) (n_y nd) (n_physics nd)
    (n_shape nd) (n_borderWidth nd) (n_opacity nd)
    (n_font_face nd) (n_font_bold nd).

(** [add_node] with the arguments [nd]. *)
Definition add_node (nd : VisNode) (net : Network) : Network :=
  if bool_decide (n_id nd ∈ node_ids net) then net
  else mkNetwork (net_height net) (net_width net) (net_directed net)
         (net_notebook net) (net_cdn_resources net) (net_physics net)
         (net_nodes net ++ [stored_node nd]) (net_edges net).

Definition push_edges (es : list VisEdge) (net : Network) : Network :=
  mkNetwork (net_height net) (net_width net) (net_directed net)
    (net_notebook net) (net_cdn_resources net) (net_physics net)
    (net_nodes net) (net_edges net ++ es).

Definition add_edge (e : VisEdge) (net : Network) : result Network :=
  if bool_decide (e_from e ∈ node_ids net) then
    if bool_decide (e_to e ∈ node_ids net) then Ok (push_edges [e] net)
    else Raise AssertionError
  else Raise AssertionError.

(** ** Graph builder *)

(** [pos[n]] *)
Definition dict_getitem {V} (d : gmap string V) (k : string) : result V :=
  match d !! k with
  | Some v => Ok v
  | None => Raise (KeyError k)
  end.

(** [labels.get(n, n)] *)
Definition label_or_id (labels : gmap string string) (n : string) : string :=
  default n (labels !! n).

Definition edge_matches (u v : string) (e : Edge) : Prop :=
  (source e = u ∧ target e = v) ∨ (source e = v ∧ target e = u).

#[global] Instance edge_matches_dec u v e : Decision (edge_matches u v e).
Proof. unfold edge_matches. apply _. Defined.

Fixpoint edge_label (u v : string) (pool : list Edge) : string :=
  match pool with
  | [] => ""
  | e :: pool' =>
      if bool_decide (edge_matches u v e) then label e
      else edge_label u v pool'
  end.

(** The two objects the builder works on: the configuration it is
    handed, which is the session's, and the network under
    construction.  Every statement of [build_network] takes the pair
    to the pair after it. *)
Record world := mkWorld {
  w_cfg : DiagramConfig;
  w_net : Network
}.

(** A method call on the network that returns normally. *)
Definition on_net (f : Network → Network) (w : world) : world :=
  mkWorld (w_cfg w) (f (w_net w)).

(** A method call on the network that may raise. *)
Definition try_net (f : Network → result Network) (w : world) : result world :=
  net ← f (w_net w); Ok (mkWorld (w_cfg w) net).

Section Builder.
Context `{Arith}.

(** The arguments of the two [add_node] calls. *)
Definition outer_node (cfg : DiagramConfig) (n : string) (xy : Z * Z)
  : VisNode :=
  {| n_id := n; n_label := label_or_id (outer_labels cfg) n;
     n_x := xy.1; n_y := xy.2;
     n_physics := negb (lock_positions cfg);
     n_shape := "box"; n_borderWidth := 1;
     n_opacity := Some (35 # 100)%Q;
     n_font_face := "Times New Roman"; n_font_bold := true |}.

Definition inner_node (cfg : DiagramConfig) (n : string) (xy : Z * Z)
  : VisNode :=
  {| n_id := n; n_label := label_or_id (inner_labels cfg) n;
     n_x := xy.1; n_y := xy.2;
     n_physics := negb (lock_positions cfg);
     n_shape := "box"; n_borderWidth := 2;
     n_opacity := None;
     n_font_face := "Times New Roman"; n_font_bold := true |}.

(** [add_edge(u, v, label=..., arrows=..., smooth=True)] *)
Definition ring_edge (u v lbl arrows : string) : VisEdge :=
  {| e_from := u; e_to := v; e_label := Some lbl; e_arrows := arrows;
     e_dashes := None; e_color := None; e_smooth := true |}.

(** [add_edge(o, i, dashes=True, arrows="to", color="gray", smooth=True)] *)
Definition cross_edge (o i : string) : VisEdge :=
  {| e_from := o; e_to := i; e_label := None; e_arrows := "to";
     e_dashes := Some true; e_color := Some "gray"; e_smooth := true |}.

(** [build_network(cfg)]: the network returned, and the configuration
    object as the call leaves it. *)
Definition build_network (cfg : DiagramConfig)
  : result (Network * DiagramConfig) :=
  let w := mkWorld cfg (new_network "760px" "100%" true false "in_line") in
  let w := on_net (toggle_physics (physics (w_cfg w))) w in
  (* positions *)
  inner_pos ←
    circle_positions (inner_nodes (w_cfg w)) (inner_radius (w_cfg w))
      true (start_angle_deg (w_cfg w));
  outer_pos ←
    circle_positions (outer_nodes (w_cfg w)) (outer_radius (w_cfg w))
      true (start_angle_deg (w_cfg w));
  (* outer (background) *)
  w ← foldM (λ w n,
         xy ← dict_getitem outer_pos n;
         Ok (on_net (add_node (outer_node (w_cfg w) n xy)) w))
       w (outer_nodes (w_cfg w));
  (* inner (foreground) *)
  w ← foldM (λ w n,
         xy ← dict_getitem inner_pos n;
         Ok (on_net (add_node (inner_node (w_cfg w) n xy)) w))
       w (inner_nodes (w_cfg w));
  (* OUTER: cycle edges without arrows *)
  w ← foldM (λ w '(i, u),
         v ← list_getitem (outer_nodes (w_cfg w))
               ((Z.of_nat i + 1)
                `mod` Z.of_nat (length (outer_nodes (w_cfg w))));
         try_net (add_edge (ring_edge u v
                              (edge_label u v (outer_edges (w_cfg w))) ""))
                 w)
       w (enumerate (outer_nodes (w_cfg w)));
  (* INNER: keep arrows *)
  w ← foldM (λ w '(i, u),
         v ← list_getitem (inner_nodes (w_cfg w))
               ((Z.of_nat i - 1)
                `mod` Z.of_nat (length (inner_nodes (w_cfg w))));
         try_net (add_edge (ring_edge u v
                              (edge_label u v (inner_edges (w_cfg w))) "to"))
                 w)
       w (enumerate (inner_nodes (w_cfg w)));
  w ← (if show_cross_links (w_cfg w) then
         foldM (λ w '(o, i),
                  if bool_decide (o ∈ outer_nodes (w_cfg w)
                                  ∧ i ∈ inner_nodes (w_cfg w))
                  then try_net (add_edge (cross_edge o i)) w
                  else Ok w)
               w (cross_links (w_cfg w))
       else Ok w);
  Ok (w_net w, w_cfg w).

End Builder.

(** ** Editing surface *)

Inductive notice :=
  | Success (msg : string)
  | Error (msg : string) (cause : option exn).

Definition set_inner (names : list string) (labels : gmap string string)
    (cfg : DiagramConfig) : DiagramConfig :=
  mkConfig names labels (inner_edges cfg)
    (outer_nodes cfg) (outer_labels cfg) (outer_edges cfg)
    (cross_links cfg) (show_cross_links cfg) (lock_positions cfg)
    (inner_radius cfg) (outer_radius cfg) (start_angle_deg cfg) (physics cfg).

Definition set_outer (names : list string) (labels : gmap string string)
    (cfg : DiagramConfig) : DiagramConfig :=
  mkConfig (inner_nodes cfg) (inner_labels cfg) (inner_edges cfg)
    names labels (outer_edges cfg)
    (cross_links cfg) (show_cross_links cfg) (lock_positions cfg)
    (inner_radius cfg) (outer_radius cfg) (start_angle_deg cfg) (physics cfg).

Definition set_cross_links (pairs : list (string * string))
    (cfg : DiagramConfig) : DiagramConfig :=
  mkConfig (inner_nodes cfg) (inner_labels cfg) (inner_edges cfg)
    (outer_nodes cfg) (outer_labels cfg) (outer_edges cfg)
    pairs (show_cross_links cfg) (lock_positions cfg)
    (inner_radius cfg) (outer_radius cfg) (start_angle_deg cfg) (physics cfg).

(** [cfg.inner_radius = inner; cfg.outer_radius = outer] *)
Definition set_radii (inner outer : Z) (cfg : DiagramConfig)
  : DiagramConfig :=
  mkConfig (inner_nodes cfg) (inner_labels cfg) (inner_edges cfg)
    (outer_nodes cfg) (outer_labels cfg) (outer_edges cfg)
    (cross_links cfg) (show_cross_links cfg) (lock_positions cfg)
    inner outer (start_angle_deg cfg) (physics cfg).

(** [[x.strip() for x in text.split(",") if x.strip()]] *)
Definition parse_names (text : string) : list string :=
  omap (λ x, if PyStr.truthy (PyStr.strip x) then Some (PyStr.strip x)
             else None)
       (PyStr.split_comma text).

(** [{n: labels.get(n, n) for n in names}] *)
Definition keep_labels (labels : gmap string string) (names : list string)
  : gmap string string :=
  foldl (λ (d : gmap string string) n, <[n := label_or_id labels n]> d)
        ∅ names.

(** The "Update inner order/labels" button. *)
Definition on_update_inner (new_inner : string) (cfg : DiagramConfig)
  : DiagramConfig * notice :=
  let names := parse_names new_inner in
  if bool_decide (3 ≤ length names)%nat then
    let labels := keep_labels (inner_labels cfg) names in
    (set_inner names labels cfg, Success "Inner order updated.")
  else (cfg, Error "Please provide at least 3 inner nodes." None).

(** The "Update outer order/labels" button. *)
Definition on_update_outer (new_outer : string) (cfg : DiagramConfig)
  : DiagramConfig * notice :=
  let names := parse_names new_outer in
  if bool_decide (3 ≤ length names)%nat then
    let labels := keep_labels (outer_labels cfg) names in
    (set_outer names labels cfg, Success "Outer order updated.")
  else (cfg, Error "Please provide at least 3 outer nodes." None).

Definition arrow : string := "→".
Definition ascii_arrow : string := "->".

(** [o,i = [x.strip() for x in a.split(sep,1)]]: unpacking anything
    but two items raises. *)
Definition unpack_pair (parts : list string) : result (string * string) :=
  match parts with
  | [o; i] => Ok (o, i)
  | _ => Raise ValueError
  end.

(** One pass of the token loop: [None] is the [continue] branch. *)
Definition parse_token (token : string)
  : result (option (string * string)) :=
  let a := PyStr.strip token in
  if PyStr.contains arrow a then
    oi ← unpack_pair (PyStr.strip <$> PyStr.split1 arrow a); Ok (Some oi)
  else if PyStr.contains ascii_arrow a then
    oi ← unpack_pair (PyStr.strip <$> PyStr.split1 ascii_arrow a); Ok (Some oi)
  else Ok None.

(** The body of the [try] block up to the assignment. *)
Definition parse_pairs (pairs_in : string) (cfg : DiagramConfig)
  : result (list (string * string)) :=
  if PyStr.truthy (PyStr.strip pairs_in) then
    foldM (λ (pairs : list (string * string)) token,
             p ← parse_token token;
             match p with
             | Some oi => Ok (pairs ++ [oi])%list
             | None => Ok pairs
             end)
          [] (PyStr.split_comma pairs_in)
  else Ok (cartesian (outer_nodes cfg) (inner_nodes cfg)).

(** The "Set cross-links" button. *)
Definition on_set_cross_links (pairs_in : string) (cfg : DiagramConfig)
  : DiagramConfig * notice :=
  match parse_pairs pairs_in cfg with
  | Ok pairs => (set_cross_links pairs cfg, Success "Cross-links updated.")
  | Raise e => (cfg, Error "Failed to parse pairs" (Some e))
  end.

(** ** Serialization

    The [json] library is an external collaborator, kept behind the
    interface [Codec]: [json.loads] returns the value a text denotes or
    raises, and [json.dumps] writes a value, tuples as arrays.  A codec
    is [faithful] when reading back what it wrote gives the value
    written.  Numbers are the integers (no field of the application
    holds a float). *)

#[local] Set Warnings "-register-all".

Inductive json :=
  | JNull
  | JBool (b : bool)
  | JInt (n : Z)
  | JStr (s : string)
  | JArr (items : list json)
  | JObj (members : list (string * json)).

Class Codec := {
  text : Type;
  json_dumps : json → text;
  json_loads : text → result json
}.

Definition faithful `{Codec} : Prop :=
  ∀ v, json_loads (json_dumps v) = Ok v.

(** Texts taken up to the JSON grammar: a text is either not a JSON
    document, or the document of a value. *)
Inductive document :=
  | Malformed
  | Document (j : json).

#[global] Instance document_codec : Codec := {|
  text := document;
  json_dumps := Document;
  json_loads := λ s, match s with
                     | Malformed => Raise JSONDecodeError
                     | Document j => Ok j
                     end
|}.

(** [d.get(k)] on the members of an object. *)
Fixpoint member (k : string) (kvs : list (string * json)) : option json :=
  match kvs with
  | [] => None
  | (k', v) :: kvs' => if String.eqb k' k then Some v else member k kvs'
  end.

(** [d[k] = v]: in place when the key exists, appended otherwise. *)
Fixpoint set_member (k : string) (v : json) (kvs : list (string * json))
  : list (string * json) :=
  match kvs with
  | [] => [(k, v)]
  | (k', v') :: kvs' =>
      if String.eqb k' k then (k', v) :: kvs'
      else (k', v') :: set_member k v kvs'
  end.

(** [raw[k]] *)
Definition getitem (raw : json) (k : string) : result json :=
  match raw with
  | JObj kvs =>
      match member k kvs with
      | Some v => Ok v
      | None => Raise (KeyError k)
      end
  | _ => Raise TypeError
  end.

(** [raw.get(k, dflt)] *)
Definition get (raw : json) (k : string) (dflt : json) : result json :=
  match raw with
  | JObj kvs => Ok (default dflt (member k kvs))
  | _ => Raise AttributeError
  end.

(** What iterating over a loaded value yields: the items of a list,
    the keys of a dict, the characters of a string. *)
Definition iter (v : json) : result (list json) :=
  match v with
  | JArr items => Ok items
  | JObj kvs => Ok (JStr <$> kvs.*1)
  | JStr s => Ok (JStr <$> PyStr.chars s)
  | _ => Raise TypeError
  end.

(** The configuration object as Python holds it: the dataclass does not
    check its annotations, so a field holds whatever value was loaded.
    [inner_edges] and [outer_edges] are lists of [Edge] objects and
    [cross_links] a list of tuples. *)
Module Dyn.

Record Edge := mkEdge {
  source : json;
  target : json;
  label : json
}.

Record DiagramConfig := mkConfig {
  inner_nodes : json;
  inner_labels : json;
  inner_edges : list Edge;
  outer_nodes : json;
  outer_labels : json;
  outer_edges : list Edge;
  cross_links : list (list json);
  show_cross_links : json;
  lock_positions : json;
  inner_radius : json;
  outer_radius : json;
  start_angle_deg : json;
  physics : json
}.

(** [asdict(e)] *)
Definition asdict_edge (e : Edge) : json :=
  JObj [("source", source e); ("target", target e); ("label", label e)].

(** [asdict(cfg)]; the tuples of [cross_links] are written as arrays
    by [json.dumps]. *)
Definition asdict (cfg : DiagramConfig) : list (string * json) :=
  [("inner_nodes", inner_nodes cfg);
   ("inner_labels", inner_labels cfg);
   ("inner_edges", JArr (asdict_edge <$> inner_edges cfg));
   ("outer_nodes", outer_nodes cfg);
   ("outer_labels", outer_labels cfg);
   ("outer_edges", JArr (asdict_edge <$> outer_edges cfg));
   ("cross_links", JArr (JArr <$> cross_links cfg));
   ("show_cross_links", show_cross_links cfg);
   ("lock_positions", lock_positions cfg);
   ("inner_radius", inner_radius cfg);
   ("outer_radius", outer_radius cfg);
   ("start_angle_deg", start_angle_deg cfg);
   ("physics", physics cfg)].

Definition to_json `{Codec} (cfg : DiagramConfig) : text :=
  let enc := asdict cfg in
  let enc := set_member "inner_edges"
               (JArr (asdict_edge <$> inner_edges cfg)) enc in
  let enc := set_member "outer_edges"
               (JArr (asdict_edge <$> outer_edges cfg)) enc in
  json_dumps (JObj enc).

Definition edge_fields : list string := ["source"; "target"; "label"].

(** [Edge] called with the keyword arguments of [e]: [e] must be a dict whose keys are field names, with
    [source] and [target] among them; [label] defaults to [""]. *)
Definition Edge_kw (e : json) : result Edge :=
  match e with
  | JObj kvs =>
      if forallb (λ k, bool_decide (k ∈ edge_fields)) kvs.*1 then
        match member "source" kvs, member "target" kvs with
        | Some s, Some t =>
            Ok (mkEdge s t (default (JStr "") (member "label" kvs)))
        | _, _ => Raise TypeError
        end
      else Raise TypeError
  | _ => Raise TypeError
  end.

(** The comprehension building one [Edge] from each item of [v]. *)
Definition edges_from (v : json) : result (list Edge) :=
  es ← iter v; mapM_r Edge_kw es.

(** [[tuple(x) for x in v]] *)
Definition tuples_from (v : json) : result (list (list json)) :=
  xs ← iter v; mapM_r iter xs.

Definition from_json `{Codec} (s : text) : result DiagramConfig :=
  raw ← json_loads s;
  inner_nodes ← getitem raw "inner_nodes";
  inner_labels ← getitem raw "inner_labels";
  inner_edges ← (v ← getitem raw "inner_edges"; edges_from v);
  outer_nodes ← getitem raw "outer_nodes";
  outer_labels ← getitem raw "outer_labels";
  outer_edges ← (v ← getitem raw "outer_edges"; edges_from v);
  cross_links ← (v ← get raw "cross_links" (JArr []); tuples_from v);
  show_cross_links ← get raw "show_cross_links" (JBool true);
  lock_positions ← get raw "lock_positions" (JBool true);
  inner_radius ← get raw "inner_radius" (JInt 200);
  outer_radius ← get raw "outer_radius" (JInt 380);
  start_angle_deg ← get raw "start_angle_deg" (JInt 90);
  physics ← get raw "physics" (JBool false);
  Ok (mkConfig inner_nodes inner_labels inner_edges
        outer_nodes outer_labels outer_edges cross_links
        show_cross_links lock_positions inner_radius outer_radius
        start_angle_deg physics).

End Dyn.

(** A configuration that respects the annotations, as the Python object
    it is. *)
Definition embed_labels (m : gmap string string) : json :=
  JObj ((λ kv : string * string, (kv.1, JStr kv.2)) <$> map_to_list m).

Definition embed_edge (e : Edge) : Dyn.Edge :=
  Dyn.mkEdge (JStr (source e)) (JStr (target e)) (JStr (label e)).

Definition embed (c : DiagramConfig) : Dyn.DiagramConfig :=
  Dyn.mkConfig
    (JArr (JStr <$> inner_nodes c)) (embed_labels (inner_labels c))
    (embed_edge <$> inner_edges c)
    (JArr (JStr <$> outer_nodes c)) (embed_labels (outer_labels c))
    (embed_edge <$> outer_edges c)
    ((λ p, [JStr p.1; JStr p.2]) <$> cross_links c)
    (JBool (show_cross_links c)) (JBool (lock_positions c))
    (JInt (inner_radius c)) (JInt (outer_radius c))
    (JInt (start_angle_deg c)) (JBool (physics c)).

Definition to_json `{Codec} (cfg : DiagramConfig) : text :=
  Dyn.to_json (embed cfg).
Definition from_json `{Codec} (s : text) : result Dyn.DiagramConfig :=
  Dyn.from_json s.

(** ** Vocabulary of the statements *)

(** Rounding to the nearest integer, as the specification words the
    layout ([round(radius * cos(angle))]). *)
Definition round_nearest (r : R) : Z := Int_part (r + / 2).

(** When the layout of a ring goes through: there is nothing to place,
    or the start angle and the radius both have a float. *)
Definition ring_fits (names : list string) (radius start_angle_deg : Z)
  : Prop :=
  names = [] ∨ (fits_float start_angle_deg ∧ fits_float radius).

#[global] Instance ring_fits_dec names radius start :
  Decision (ring_fits names radius start).
Proof. unfold ring_fits. apply _. Defined.

(** The configurations on which both layouts of the builder go
    through. *)
Definition layout_ok (cfg : DiagramConfig) : Prop :=
  ring_fits (inner_nodes cfg) (inner_radius cfg) (start_angle_deg cfg)
  ∧ ring_fits (outer_nodes cfg) (outer_radius cfg) (start_angle_deg cfg).

#[global] Instance layout_ok_dec cfg : Decision (layout_ok cfg).
Proof. unfold layout_ok. apply _. Defined.

(** What the layout computes once the conversions have succeeded. *)
Definition angle_at `{Arith} (clockwise : bool) (start_angle_deg : Z)
    (i n : nat) : flt :=
  radians (fadd (of_int start_angle_deg)
                (truediv ((if clockwise then -360 else 360) * Z.of_nat i)
                         (Z.of_nat n))).

Definition point_at `{Arith} (radius : Z) (clockwise : bool)
    (start_angle_deg : Z) (i n : nat) : Z * Z :=
  let ang := angle_at clockwise start_angle_deg i n in
  (to_int (fmul (of_int radius) (fcos ang)),
   to_int (fmul (of_int radius) (fsin ang))).

(** The float products of the layout are within [eps] of the real
    products [radius * cos a] and [radius * sin a]. *)
Definition products_accurate `{Arith} (radius : Z) (eps : R) : Prop :=
  ∀ a : flt,
    (Rabs (to_real (fmul (of_int radius) (fcos a))
           - IZR radius * cos (to_real a)) <= eps)%R
    ∧ (Rabs (to_real (fmul (of_int radius) (fsin a))
             - IZR radius * sin (to_real a)) <= eps)%R.

Definition positions_at `{Arith} (names : list string) (radius : Z)
    (clockwise : bool) (start_angle_deg : Z) : gmap string (Z * Z) :=
  foldl (λ (pos : gmap string (Z * Z)) '(i, name),
           <[name := point_at radius clockwise start_angle_deg i
                       (length names)]> pos)
        ∅ (enumerate names).

(** How the three families of edges are told apart in the built graph:
    the outer ring has no arrowhead, the inner ring an arrowhead and a
    solid line, a cross-link is dashed. *)
Definition no_arrow (e : VisEdge) : Prop := e_arrows e = "".
Definition solid_arrow (e : VisEdge) : Prop :=
  e_arrows e = "to" ∧ e_dashes e = None.
Definition dashed (e : VisEdge) : Prop := e_dashes e = Some true.

#[global] Instance no_arrow_dec e : Decision (no_arrow e).
Proof. unfold no_arrow. apply _. Defined.
#[global] Instance solid_arrow_dec e : Decision (solid_arrow e).
Proof. unfold solid_arrow. apply _. Defined.
#[global] Instance dashed_dec e : Decision (dashed e).
Proof. unfold dashed. apply _. Defined.

(** The ring edge drawn at index [i]: from [nodes[i]] to
    [nodes[(i + step) % len(nodes)]]. *)
Definition ring_edge_at (nodes : list string) (pool : list Edge) (step : Z)
    (arrows : string) (i : nat) (u : string) : VisEdge :=
  let v := nodes !!! Z.to_nat ((Z.of_nat i + step) `mod` Z.of_nat (length nodes)) in
  ring_edge u v (edge_label u v pool) arrows.

Definition ring_edges (nodes : list string) (pool : list Edge) (step : Z)
    (arrows : string) : list VisEdge :=
  imap (ring_edge_at nodes pool step arrows) nodes.

Definition link_drawn (cfg : DiagramConfig) (p : string * string) : Prop :=
  p.1 ∈ outer_nodes cfg ∧ p.2 ∈ inner_nodes cfg.

#[global] Instance link_drawn_dec cfg p : Decision (link_drawn cfg p).
Proof. unfold link_drawn. apply _. Defined.

Definition cross_edges (cfg : DiagramConfig) : list VisEdge :=
  if show_cross_links cfg
  then (λ p, cross_edge p.1 p.2) <$> filter (link_drawn cfg) (cross_links cfg)
  else [].

(** [lbl] is the label of the first stored edge joining [u] and [v] in
    either direction, and the empty string when there is none. *)
Definition first_match (u v : string) (pool : list Edge) (lbl : string) : Prop :=
  (∃ pre e post, pool = pre ++ e :: post ∧ edge_matches u v e ∧
                 Forall (λ e', ¬ edge_matches u v e') pre ∧ lbl = label e)
  ∨ (Forall (λ e', ¬ edge_matches u v e') pool ∧ lbl = "").

(** [j] is the last index at which [nm] occurs in [names]. *)
Definition last_index (names : list string) (nm : string) (j : nat) : Prop :=
  names !! j = Some nm ∧ ∀ j', (j < j')%nat → names !! j' ≠ Some nm.

(** A token of the cross-link input is malformed when it holds
    neither arrow. *)
Definition malformed (token : string) : Prop :=
  PyStr.contains arrow (PyStr.strip token) = false
  ∧ PyStr.contains ascii_arrow (PyStr.strip token) = false.

(** The pair a token stands for: split at the first arrow (the Unicode
    arrow is tried first), both sides stripped; none for a malformed
    token. *)
Definition token_pair (token : string) : option (string * string) :=
  let a := PyStr.strip token in
  match PyStr.partition arrow a with
  | Some (o, i) => Some (PyStr.strip o, PyStr.strip i)
  | None =>
      match PyStr.partition ascii_arrow a with
      | Some (o, i) => Some (PyStr.strip o, PyStr.strip i)
      | None => None
      end
  end.

(** The shapes [from_json] accepts. *)
Definition required_fields : list string :=
  ["inner_nodes"; "inner_labels"; "inner_edges";
   "outer_nodes"; "outer_labels"; "outer_edges"].

(** An object with members [source] and [target], possibly [label], and
    no other. *)
Definition edge_object (e : json) : Prop :=
  ∃ kvs, e = JObj kvs
    ∧ Forall (λ k, k ∈ Dyn.edge_fields) kvs.*1
    ∧ is_Some (member "source" kvs) ∧ is_Some (member "target" kvs).

Definition iterable (v : json) : Prop :=
  match v with
  | JArr _ | JObj _ | JStr _ => True
  | _ => False
  end.

(** An array of edge objects, or a value that iterates to nothing. *)
Definition edge_list (v : json) : Prop :=
  match v with
  | JArr items => Forall edge_object items
  | JObj kvs => kvs = []
  | JStr s => s = ""
  | _ => False
  end.

(** An array of arrays, objects and strings, or an object, or a
    string. *)
Definition link_list (v : json) : Prop :=
  match v with
  | JArr items => Forall iterable items
  | JObj _ | JStr _ => True
  | _ => False
  end.

Definition accepted `{Codec} (s : text) : Prop :=
  ∃ kvs, json_loads s = Ok (JObj kvs)
    ∧ Forall (λ k, is_Some (member k kvs)) required_fields
    ∧ (∀ v, member "inner_edges" kvs = Some v → edge_list v)
    ∧ (∀ v, member "outer_edges" kvs = Some v → edge_list v)
    ∧ (∀ v, member "cross_links" kvs = Some v → link_list v).

(** ** Label and edge editors

    [st.text_input] is an external collaborator.  No call of the script
    gives a [key], so Streamlit identifies a text field by its label
    and the value it is offered: a run of the script that creates a
    second field with the label and the value of an earlier one stops
    with [DuplicateWidgetID].  [fields] lists the text fields created
    so far in the run, and [ask label value] is the text the field
    returns: [value] as long as the user has not touched it. *)

Definition fields := list (string * string).

Definition text_input (ask : string → string → string) (label value : string)
    (seen : fields) : result (string * fields) :=
  if bool_decide ((label, value) ∈ seen) then Raise DuplicateWidgetID
  else Ok (ask label value, seen ++ [(label, value)]).

Definition inner_label_title (n : string) : string :=
  "Label for inner node '" +:+ n +:+ "'".

Definition outer_label_title (n : string) : string :=
  "Label for outer node '" +:+ n +:+ "'".

Definition edge_title (u v : string) : string :=
  "Label for edge " +:+ u +:+ " → " +:+ v.

(** [for n in nodes: labels[n] = st.text_input(title(n), value=labels.get(n,n))] *)
Definition edit_labels (ask : string → string → string)
    (title : string → string) (nodes : list string)
    (labels : gmap string string) (seen : fields)
  : result (gmap string string * fields) :=
  foldM (λ (st : gmap string string * fields) n,
           r ← text_input ask (title n) (label_or_id st.1 n) st.2;
           Ok (<[n := r.1]> st.1, r.2))
        (labels, seen) nodes.

Definition on_edit_inner_labels (ask : string → string → string)
    (cfg : DiagramConfig) (seen : fields) : result (DiagramConfig * fields) :=
  st ← edit_labels ask inner_label_title (inner_nodes cfg) (inner_labels cfg)
         seen;
  Ok (set_inner (inner_nodes cfg) st.1 cfg, st.2).

Definition on_edit_outer_labels (ask : string → string → string)
    (cfg : DiagramConfig) (seen : fields) : result (DiagramConfig * fields) :=
  st ← edit_labels ask outer_label_title (outer_nodes cfg) (outer_labels cfg)
         seen;
  Ok (set_outer (outer_nodes cfg) st.1 cfg, st.2).

(** [e.source == u and e.target == v] *)
Definition stored_as (u v : string) (e : Edge) : Prop :=
  source e = u ∧ target e = v.

#[global] Instance stored_as_dec u v e : Decision (stored_as u v e).
Proof. unfold stored_as. apply _. Defined.

(** The first inner loop: [label_val] ends as the label of the last
    edge stored as [u -> v], or [""]. *)
Definition last_label (u v : string) (edges : list Edge) : string :=
  foldl (λ label_val e,
           if bool_decide (stored_as u v e) then label e else label_val)
        "" edges.

(** The second inner loop: [e.label = new_label] on every edge stored
    as [u -> v]. *)
Definition relabel (u v new_label : string) (edges : list Edge) : list Edge :=
  (λ e, if bool_decide (stored_as u v e)
        then mkEdge (source e) (target e) new_label else e) <$> edges.

(** The flag [found] after the second inner loop. *)
Definition found (u v : string) (edges : list Edge) : bool :=
  existsb (λ e, bool_decide (stored_as u v e)) edges.

(** What the body of the edge loop leaves in the list once the field
    has returned [new_label]. *)
Definition update_or_insert (u v new_label : string) (edges : list Edge)
  : list Edge :=
  let edges' := relabel u v new_label edges in
  if found u v edges then edges' else edges' ++ [mkEdge u v new_label].

(** The body of the edge loop once [u] and [v] are read. *)
Definition edit_pair (ask : string → string → string) (u v : string)
    (edges : list Edge) (seen : fields) : result (list Edge * fields) :=
  let label_val := last_label u v edges in
  r ← text_input ask (edge_title u v)
        (if PyStr.truthy label_val then label_val else "") seen;
  Ok (update_or_insert u v r.1 edges, r.2).

(** One pass of [for i in range(len(nodes))]. *)
Definition edit_edge (ask : string → string → string) (nodes : list string)
    (st : list Edge * fields) (i : nat) : result (list Edge * fields) :=
  u ← list_getitem nodes (Z.of_nat i);
  v ← list_getitem nodes ((Z.of_nat i + 1) `mod` Z.of_nat (length nodes));
  edit_pair ask u v st.1 st.2.

Definition edit_edges (ask : string → string → string) (nodes : list string)
    (edges : list Edge) (seen : fields) : result (list Edge * fields) :=
  foldM (edit_edge ask nodes) (edges, seen) (seq 0 (length nodes)).

Definition set_inner_edges (edges : list Edge) (cfg : DiagramConfig)
  : DiagramConfig :=
  mkConfig (inner_nodes cfg) (inner_labels cfg) edges
    (outer_nodes cfg) (outer_labels cfg) (outer_edges cfg)
    (cross_links cfg) (show_cross_links cfg) (lock_positions cfg)
    (inner_radius cfg) (outer_radius cfg) (start_angle_deg cfg) (physics cfg).

Definition set_outer_edges (edges : list Edge) (cfg : DiagramConfig)
  : DiagramConfig :=
  mkConfig (inner_nodes cfg) (inner_labels cfg) (inner_edges cfg)
    (outer_nodes cfg) (outer_labels cfg) edges
    (cross_links cfg) (show_cross_links cfg) (lock_positions cfg)
    (inner_radius cfg) (outer_radius cfg) (start_angle_deg cfg) (physics cfg).

(** The "Inner edges (cycle)" editor. *)
Definition on_edit_inner_edges (ask : string → string → string)
    (cfg : DiagramConfig) (seen : fields) : result (DiagramConfig * fields) :=
  st ← edit_edges ask (inner_nodes cfg) (inner_edges cfg) seen;
  Ok (set_inner_edges st.1 cfg, st.2).

(** The "Outer edges (cycle)" editor. *)
Definition on_edit_outer_edges (ask : string → string → string)
    (cfg : DiagramConfig) (seen : fields) : result (DiagramConfig * fields) :=
  st ← edit_edges ask (outer_nodes cfg) (outer_edges cfg) seen;
  Ok (set_outer_edges st.1 cfg, st.2).

(** The endpoints of a stored edge, in the stored direction. *)
Definition edge_key (e : Edge) : string * string := (source e, target e).

(** The pairs the edge editor walks: [(nodes[i], nodes[(i+1) % N])]. *)
Definition forward_pairs (nodes : list string) : list (string * string) :=
  (λ i, (nodes !!! i,
         nodes !!! Z.to_nat ((Z.of_nat i + 1) `mod` Z.of_nat (length nodes))))
  <$> seq 0 (length nodes).

(** The labels of the fields of an edge editor. *)
Definition edge_titles (nodes : list string) : list string :=
  (λ p, edge_title p.1 p.2) <$> forward_pairs nodes.

(** The labels [titles] are pairwise distinct and none of them is the
    label of a field created earlier in the run: no field of the loop
    can repeat an earlier one. *)
Definition fresh (titles : list string) (seen : fields) : Prop :=
  NoDup titles ∧ Forall (λ t, t ∉ seen.*1) titles.

#[global] Instance fresh_dec titles seen : Decision (fresh titles seen).
Proof. unfold fresh. apply _. Defined.



(** What the editors compute when every field is accepted: the label
    mapping after the label loop, and the edge list after the edge loop
    taken as a walk over pairs. *)
Definition labels_after (ask : string → string → string)
    (title : string → string) (nodes : list string)
    (labels : gmap string string) : gmap string string :=
  foldl (λ (d : gmap string string) n,
           <[n := ask (title n) (label_or_id d n)]> d)
        labels nodes.

Definition pair_after (ask : string → string → string) (u v : string)
    (edges : list Edge) : list Edge :=
  update_or_insert u v
    (ask (edge_title u v) (last_label u v edges)) edges.

Definition pairs_after (ask : string → string → string)
    (pairs : list (string * string)) (edges : list Edge) : list Edge :=
  foldl (λ es p, pair_after ask p.1 p.2 es) edges pairs.


(** The members [from_json] looks up: the fields of [DiagramConfig]. *)
Definition known_fields : list string :=
  required_fields
  ++ ["cross_links"; "show_cross_links"; "lock_positions";
      "inner_radius"; "outer_radius"; "start_angle_deg"; "physics"].

(** ** The node text fields *)

(** [", ".join(names)]: the text a node field shows. *)
Fixpoint join_names (names : list string) : string :=
  match names with
  | [] => ""
  | [n] => n
  | n :: rest => n +:+ ", " +:+ join_names rest
  end.

(** A name the field can carry: not empty, no comma, no spaces around
    it, and not beginning inside a code point. *)
Definition clean_name (n : string) : Prop :=
  n ≠ "" ∧ PyStr.contains "," n = false ∧ PyStr.strip n = n
  ∧ PyStr.starts_cont n = false.

(** * Properties *)

(** ** Python helpers *)

Example split_comma_ex :
  PyStr.split_comma "a, b,,c" = ["a"; " b"; ""; "c"].
Proof. reflexivity. Qed.

Example strip_ex : PyStr.strip "  Metadata " = "Metadata".
Proof. reflexivity. Qed.

Example split1_arrow_ex :
  PyStr.split1 arrow "Outer→Inner→x" = ["Outer"; "Inner→x"].
Proof. reflexivity. Qed.

Example chars_ex : PyStr.chars "a→b" = ["a"; "→"; "b"].
Proof. reflexivity. Qed.

Lemma enumerate_from_lookup {X} (xs : list X) k i x :
  (i, x) ∈ enumerate_from k xs → ∃ j, i = (k + j)%nat ∧ xs !! j = Some x.
Proof.
  revert k. induction xs as [|y xs IH]; intros k Hin; simpl in Hin.
  - by apply elem_of_nil in Hin.
  - apply elem_of_cons in Hin as [Heq | Hin].
    + injection Heq as -> ->. exists 0%nat. split; [lia | done].
    + apply IH in Hin as (j & -> & Hj). exists (S j). split; [lia | done].
Qed.

Lemma enumerate_from_bind {X Y} (g : nat → X → Y) (xs : list X) k :
  (enumerate_from k xs ≫= λ '(i, x), [g i x]) = imap (λ i, g (k + i)%nat) xs.
Proof.
  revert k. induction xs as [|y xs IH]; intros k; simpl; [done |].
  rewrite Nat.add_0_r. f_equal. rewrite IH. apply imap_ext.
  intros i x _. simpl. f_equal. lia.
Qed.

(** ** Layout *)

Lemma float_of_int_fits `{Arith} (n : Z) :
  fits_float n → float_of_int n = Ok (of_int n).
Proof. intros Hn. unfold float_of_int. by rewrite bool_decide_eq_true_2. Qed.

Lemma float_of_int_overflow `{Arith} (n : Z) :
  ¬ fits_float n → float_of_int n = Raise OverflowError.
Proof. intros Hn. unfold float_of_int. by rewrite bool_decide_eq_false_2. Qed.

Lemma point_fits `{Arith} radius cw start i n :
  fits_float start → fits_float radius →
  point radius cw start i n = Ok (point_at radius cw start i n).
Proof.
  intros Hs Hr. unfold point, angle. cbv zeta.
  rewrite (float_of_int_fits _ Hs). simpl.
  by rewrite (float_of_int_fits _ Hr).
Qed.

Lemma point_overflow `{Arith} radius cw start i n :
  ¬ (fits_float start ∧ fits_float radius) →
  point radius cw start i n = Raise OverflowError.
Proof.
  intros Hno. unfold point, angle. cbv zeta.
  destruct (decide (fits_float start)) as [Hs | Hs].
  - rewrite (float_of_int_fits _ Hs). simpl.
    rewrite float_of_int_overflow; [done | tauto].
  - by rewrite (float_of_int_overflow _ Hs).
Qed.

(** A loop whose body never raises is a fold. *)
Lemma foldM_total {A X} (body : A → X → result A) (f : A → X → A)
    (xs : list X) (acc : A) :
  (∀ a x, x ∈ xs → body a x = Ok (f a x)) →
  foldM body acc xs = Ok (foldl f acc xs).
Proof.
  revert acc. induction xs as [|x xs IH]; intros acc Hbody; [done |].
  simpl. rewrite Hbody by apply list_elem_of_here. simpl.
  apply IH. intros a y Hy. apply Hbody. by apply list_elem_of_further.
Qed.

Lemma circle_positions_ok `{Arith} names radius cw start :
  ring_fits names radius start →
  circle_positions names radius cw start
  = Ok (positions_at names radius cw start).
Proof.
  intros [-> | [Hs Hr]]; [done |].
  unfold circle_positions, positions_at. cbv zeta.
  apply foldM_total. intros pos [i name] _.
  by rewrite point_fits.
Qed.

(** With a name to place, a radius or a start angle beyond the floats
    stops the layout at the first name. *)
Lemma circle_positions_overflow `{Arith} names radius cw start :
  ¬ ring_fits names radius start →
  circle_positions names radius cw start = Raise OverflowError.
Proof.
  intros Hno. destruct names as [|x names].
  - destruct Hno. by left.
  - unfold circle_positions, enumerate. simpl.
    rewrite point_overflow; [done |]. intros Hfit. apply Hno. by right.
Qed.

Lemma circle_positions_inv `{Arith} names radius cw start pos :
  circle_positions names radius cw start = Ok pos →
  ring_fits names radius start ∧ pos = positions_at names radius cw start.
Proof.
  intros Hp. destruct (decide (ring_fits names radius start)) as [Hfit | Hno].
  - split; [done |]. rewrite circle_positions_ok in Hp by done.
    by injection Hp.
  - by rewrite circle_positions_overflow in Hp.
Qed.

Section LayoutFacts.
Context `{Arith}.
Variables (radius : Z) (cw : bool) (start : Z) (n : nat).
Implicit Types (names : list string) (pos : gmap string (Z * Z)).

Let step pos (ix : nat * string) : gmap string (Z * Z) :=
  let '(i, name) := ix in <[name := point_at radius cw start i n]> pos.

Lemma fold_step_notin names k pos nm :
  nm ∉ names → foldl step pos (enumerate_from k names) !! nm = pos !! nm.
Proof.
  revert k pos. induction names as [|x names IH]; intros k pos Hnm; [done |].
  apply not_elem_of_cons in Hnm as [Hne Hnm]. simpl.
  rewrite IH by done. by apply lookup_insert_ne.
Qed.

Lemma fold_step_last names k pos nm j :
  last_index names nm j →
  foldl step pos (enumerate_from k names) !! nm
  = Some (point_at radius cw start (k + j) n).
Proof.
  revert k pos j. induction names as [|x names IH]; intros k pos j [Hj Hlast].
  - by rewrite lookup_nil in Hj.
  - simpl. destruct j as [|j].
    + injection Hj as ->. rewrite fold_step_notin.
      * rewrite Nat.add_0_r. apply lookup_insert_eq.
      * intros (j' & Hj')%list_elem_of_lookup. apply (Hlast (S j')); [lia | done].
    + rewrite (IH (S k) _ j).
      * by replace (S k + j) with (k + S j) by lia.
      * split; [done |]. intros j' Hlt. apply (Hlast (S j')). lia.
Qed.

Lemma fold_step_dom names k pos :
  dom (foldl step pos (enumerate_from k names)) = list_to_set names ∪ dom pos.
Proof.
  revert k pos. induction names as [|x names IH]; intros k pos; simpl.
  - set_solver.
  - rewrite IH, dom_insert_L. set_solver.
Qed.

End LayoutFacts.

Lemma length_remove_dups_le (l : list string) :
  length (remove_dups l) ≤ length l.
Proof.
  induction l as [|x l IH]; simpl; [done |].
  destruct (decide_rel _ x l); simpl; lia.
Qed.

Lemma length_remove_dups_lt (l : list string) :
  ¬ NoDup l → length (remove_dups l) < length l.
Proof.
  induction l as [|x l IH]; intros Hdup; simpl.
  - destruct Hdup. constructor.
  - destruct (decide_rel _ x l) as [Hin | Hnin]; simpl.
    + pose proof (length_remove_dups_le l). lia.
    + apply Nat.succ_lt_mono in IH; [done |].
      intros Hnd. apply Hdup. by constructor.
Qed.

Lemma list_to_set_remove_dups (l : list string) :
  list_to_set (C := gset string) (remove_dups l) = list_to_set l.
Proof.
  apply set_eq. intros x.
  by rewrite !elem_of_list_to_set, elem_of_remove_dups.
Qed.

Lemma positions_at_dom `{Arith} names radius cw start :
  dom (positions_at names radius cw start) = list_to_set names.
Proof.
  unfold positions_at, enumerate.
  rewrite (fold_step_dom radius cw start (length names) names 0 ∅).
  set_solver.
Qed.

Lemma positions_at_size `{Arith} names radius cw start :
  size (positions_at names radius cw start) = length (remove_dups names).
Proof.
  rewrite <- size_dom, positions_at_dom, <- list_to_set_remove_dups.
  apply size_list_to_set, NoDup_remove_dups.
Qed.

Lemma positions_at_last `{Arith} names radius cw start nm j :
  last_index names nm j →
  positions_at names radius cw start !! nm
  = Some (point_at radius cw start j (length names)).
Proof.
  intros Hlast. unfold positions_at, enumerate.
  apply (fold_step_last radius cw start (length names) names 0 ∅ nm j Hlast).
Qed.

Lemma NoDup_last_index (names : list string) i nm :
  NoDup names → names !! i = Some nm → last_index names nm i.
Proof.
  intros Hnd Hi. split; [done |]. intros j Hlt Hj.
  pose proof (NoDup_lookup _ _ _ _ Hnd Hi Hj). lia.
Qed.

Lemma remove_dups_NoDup (l : list string) : NoDup l → remove_dups l = l.
Proof.
  induction 1 as [|x l Hx Hnd IH]; simpl; [done |].
  destruct (decide_rel _ x l); [done | by rewrite IH].
Qed.

(** [int(_)] stays within one unit of its argument. *)
Lemma Rtrunc_within_one (r : R) : (Rabs (IZR (Rtrunc r) - r) < 1)%R.
Proof.
  unfold Rtrunc. destruct (Rle_dec 0 r) as [Hr | Hr].
  - destruct (base_Int_part r) as [Hle Hgt].
    apply Rabs_def1; lra.
  - destruct (base_Int_part (- r)) as [Hle Hgt].
    rewrite opp_IZR. apply Rabs_def1; lra.
Qed.

Lemma Rtrunc_nonneg (r : R) (z : Z) :
  (0 <= r)%R → (IZR z <= r < IZR z + 1)%R → Rtrunc r = z.
Proof.
  intros Hr [Hle Hlt]. unfold Rtrunc.
  destruct (Rle_dec 0 r); [| done].
  symmetry. apply Int_part_spec. lra.
Qed.

Lemma sqrt3_bounds : (17 / 10 < sqrt 3 < 18 / 10)%R.
Proof.
  split.
  - rewrite <- (sqrt_square (17 / 10)) by lra.
    apply sqrt_lt_1_alt. lra.
  - rewrite <- (sqrt_square (18 / 10)) by lra.
    apply sqrt_lt_1_alt. lra.
Qed.

(** A point of the plane each of whose coordinates is less than one
    unit from a float product, itself within [eps] of the real product
    [r * cos a], [r * sin a], lies within [sqrt 2 * (1 + eps)] of the
    circle of radius [|r|] about the origin. *)
Lemma near_circle (r eps x y c s a : R) :
  (Rabs (c - r * cos a) <= eps)%R → (Rabs (s - r * sin a) <= eps)%R →
  (Rabs (x - c) < 1)%R → (Rabs (y - s) < 1)%R →
  (Rabs (dist_euc x y 0 0 - Rabs r) < sqrt 2 * (1 + eps))%R.
Proof.
  intros Hc Hs Hx Hy.
  set (c0 := (r * cos a)%R) in *. set (s0 := (r * sin a)%R) in *.
  assert (Heps : (0 <= eps)%R).
  { pose proof (Rabs_pos (c - c0)). lra. }
  assert (Hr : dist_euc c0 s0 0 0 = Rabs r).
  { unfold dist_euc.
    replace ((c0 - 0)² + (s0 - 0)²)%R with (r² * ((sin a)² + (cos a)²))%R
      by (unfold c0, s0, Rsqr; ring).
    rewrite sin2_cos2, Rmult_1_r. apply sqrt_Rsqr_abs. }
  assert (Hx0 : (Rabs (x - c0) < 1 + eps)%R).
  { replace (x - c0)%R with ((x - c) + (c - c0))%R by ring.
    pose proof (Rabs_triang (x - c) (c - c0)). lra. }
  assert (Hy0 : (Rabs (y - s0) < 1 + eps)%R).
  { replace (y - s0)%R with ((y - s) + (s - s0))%R by ring.
    pose proof (Rabs_triang (y - s) (s - s0)). lra. }
  assert (Hsq : ∀ u t : R, (Rabs u < t)%R → (u² < t²)%R).
  { intros u t Hu. rewrite (Rsqr_abs u). apply Rsqr_lt_abs_1.
    rewrite Rabs_Rabsolu. pose proof (Rabs_pos u).
    rewrite (Rabs_right t) by lra. done. }
  assert (Hd : (dist_euc x y c0 s0 < sqrt 2 * (1 + eps))%R).
  { unfold dist_euc.
    replace (sqrt 2 * (1 + eps))%R with (sqrt (2 * (1 + eps)²)).
    - apply sqrt_lt_1_alt. split.
      + pose proof (Rle_0_sqr (x - c0)). pose proof (Rle_0_sqr (y - s0)). lra.
      + pose proof (Hsq _ _ Hx0). pose proof (Hsq _ _ Hy0). lra.
    - rewrite sqrt_mult by (lra || apply Rle_0_sqr).
      by rewrite sqrt_Rsqr by lra. }
  pose proof (triangle x y 0 0 c0 s0) as T1.
  pose proof (triangle c0 s0 0 0 x y) as T2.
  rewrite (distance_symm c0 s0 x y) in T2.
  rewrite Hr in T1, T2.
  apply Rabs_def1; lra.
Qed.

(** C3, as the specification words it: refuted.  In exact arithmetic
    the single name ["a"] placed with radius 10 at a start angle of 60
    degrees gets the ordinate [int(10 * sin(60°)) = int(8.66…) = 8],
    whereas rounding to nearest gives 9. *)
Lemma circle_positions_rounds_counterexample :
  let ang := ((60 + IZR (-360 * 0) / 1) * (PI / 180))%R in
  (∃ pos, circle_positions (H := real_arith) ["a"] 10 true 60 = Ok pos
     ∧ pos !! "a" = Some (5, 8)%Z)
  ∧ (round_nearest (10 * cos ang), round_nearest (10 * sin ang)) ≠ (5, 8)%Z.
Proof.
  assert (Hang : ((60 + IZR (-360 * 0) / 1) * (PI / 180) = PI / 3)%R).
  { change (IZR (-360 * 0)) with 0%R. field. }
  pose proof sqrt3_bounds as [Hlo Hhi].
  split.
  - eexists. split.
    { apply circle_positions_ok. right.
      split; apply (bool_decide_unpack _); vm_compute; exact I. }
    rewrite (positions_at_last ["a"] 10 true 60 "a" 0).
    + unfold point_at, angle_at, to_int. simpl.
      change (IZR (-360 * Z.of_nat 0) / IZR (Z.of_nat 1))%R
        with (IZR (-360 * 0) / 1)%R.
      rewrite Hang.
      rewrite cos_PI3, sin_PI3. f_equal. f_equal.
      * apply Rtrunc_nonneg; lra.
      * apply Rtrunc_nonneg; lra.
    + split; [done |]. intros [|j'] Hlt; [lia | done].
  - intros Heq. injection Heq as _ Hy. revert Hy. cbv zeta.
    rewrite Hang, sin_PI3. unfold round_nearest. intros Hy.
    assert (H9 : 9%Z = Int_part (10 * (sqrt 3 / 2) + / 2)).
    { apply Int_part_spec. lra. }
    rewrite <- H9 in Hy. discriminate.
Qed.

(** C3 (amended).  When the radius and the start angle have a float,
    [circle_positions] returns, for distinct names, a mapping with
    exactly [N = len(names)] keys, the names themselves; the name at
    index [i] is mapped to
    [(int(radius * cos(angle_i)), int(radius * sin(angle_i)))] with
    [angle_i = radians(start_angle_deg + (-360 if clockwise else 360) * i / N)],
    where [int] truncates toward zero, so each coordinate lies less than
    one unit from the computed product; and, the float products being
    within [eps] of the real products [radius * cos a] and
    [radius * sin a], every position lies within [sqrt 2 * (1 + eps)]
    of Euclidean distance [|radius|] from the origin. *)
Theorem circle_positions_distinct `{Arith} (eps : R) (names : list string)
    (radius : Z) (clockwise : bool) (start_angle_deg : Z) :
  products_accurate radius eps →
  NoDup names → fits_float radius → fits_float start_angle_deg →
  ∃ pos,
    circle_positions names radius clockwise start_angle_deg = Ok pos ∧
    let N := length names in
    size pos = N ∧ dom pos = list_to_set names ∧
    ∀ i name, names !! i = Some name →
      let ang :=
        radians (fadd (of_int start_angle_deg)
                   (truediv ((if clockwise then -360 else 360) * Z.of_nat i)
                            (Z.of_nat N))) in
      let px := to_real (fmul (of_int radius) (fcos ang)) in
      let py := to_real (fmul (of_int radius) (fsin ang)) in
      pos !! name = Some (Rtrunc px, Rtrunc py) ∧
      (Rabs (IZR (Rtrunc px) - px) < 1)%R ∧
      (Rabs (IZR (Rtrunc py) - py) < 1)%R ∧
      (Rabs (dist_euc (IZR (Rtrunc px)) (IZR (Rtrunc py)) 0 0
             - Rabs (IZR radius)) < sqrt 2 * (1 + eps))%R.
Proof.
  intros Hacc Hnd Hr Hs. eexists. split.
  { apply circle_positions_ok. right. by split. }
  cbv zeta. split; [| split].
  - by rewrite positions_at_size, remove_dups_NoDup.
  - apply positions_at_dom.
  - intros i name Hi.
    set (ang := radians _).
    destruct (Hacc ang) as [Hcos Hsin].
    split_and!.
    + by rewrite (positions_at_last names radius clockwise start_angle_deg
                    name i (NoDup_last_index names i name Hnd Hi)).
    + apply Rtrunc_within_one.
    + apply Rtrunc_within_one.
    + apply (near_circle (IZR radius) eps _ _
               (to_real (fmul (of_int radius) (fcos ang)))
               (to_real (fmul (of_int radius) (fsin ang)))
               (to_real ang));
        try done; apply Rtrunc_within_one.
Qed.

Lemma circle_positions_distinct_witness :
  products_accurate (H := real_arith) 200 0
  ∧ NoDup ["Knowledge"; "Models"; "Data"]
  ∧ fits_float 200 ∧ fits_float 90
  ∧ ∃ pos, circle_positions (H := real_arith) ["Knowledge"; "Models"; "Data"]
             200 true 90 = Ok pos
      ∧ size pos = 3.
Proof.
  assert (Hacc : products_accurate (H := real_arith) 200 0).
  { intros a. simpl. rewrite !Rminus_diag, Rabs_R0. lra. }
  assert (Hnd : NoDup ["Knowledge"; "Models"; "Data"]).
  { apply (bool_decide_unpack _). vm_compute. exact I. }
  assert (Hr : fits_float 200).
  { apply (bool_decide_unpack _). vm_compute. exact I. }
  assert (Hs : fits_float 90).
  { apply (bool_decide_unpack _). vm_compute. exact I. }
  split; [exact Hacc |]. split; [exact Hnd |].
  split; [exact Hr |]. split; [exact Hs |].
  destruct (circle_positions_distinct (H := real_arith) 0
              ["Knowledge"; "Models"; "Data"] 200 true 90 Hacc Hnd Hr Hs)
    as (pos & Hpos & Hsize & _).
  exists pos. split; [exact Hpos | exact Hsize].
Defined.

(** C10.  With a repeated name, and a radius and a start angle that
    have a float, the mapping returned has one entry per distinct name,
    hence fewer entries than [len(names)], and every name is mapped to
    the point computed at its last index. *)
Theorem circle_positions_duplicates `{Arith} (names : list string)
    (radius : Z) (clockwise : bool) (start_angle_deg : Z) :
  ¬ NoDup names → fits_float radius → fits_float start_angle_deg →
  ∃ pos,
    circle_positions names radius clockwise start_angle_deg = Ok pos ∧
    dom pos = list_to_set names ∧
    size pos = length (remove_dups names) ∧
    size pos < length names ∧
    ∀ name j, last_index names name j →
      ∃ xy, point radius clockwise start_angle_deg j (length names) = Ok xy
        ∧ pos !! name = Some xy.
Proof.
  intros Hdup Hr Hs. eexists. split.
  { apply circle_positions_ok. right. by split. }
  split; [| split; [| split]].
  - apply positions_at_dom.
  - apply positions_at_size.
  - rewrite positions_at_size. by apply length_remove_dups_lt.
  - intros name j Hlast. eexists. split; [by apply point_fits |].
    by apply positions_at_last.
Qed.

Lemma circle_positions_duplicates_witness :
  ¬ NoDup ["a"; "b"; "a"] ∧ fits_float 200 ∧ fits_float 90
  ∧ ∃ pos, circle_positions (H := real_arith) ["a"; "b"; "a"] 200 true 90
           = Ok pos
      ∧ size pos = 2
      ∧ ∃ xy, point (H := real_arith) 200 true 90 2 3 = Ok xy
          ∧ pos !! "a" = Some xy.
Proof.
  assert (Hdup : ¬ NoDup ["a"; "b"; "a"]).
  { apply (bool_decide_unpack _). vm_compute. exact I. }
  assert (Hr : fits_float 200).
  { apply (bool_decide_unpack _). vm_compute. exact I. }
  assert (Hs : fits_float 90).
  { apply (bool_decide_unpack _). vm_compute. exact I. }
  destruct (circle_positions_duplicates (H := real_arith)
              ["a"; "b"; "a"] 200 true 90 Hdup Hr Hs)
    as (pos & Hpos & _ & Hsize & _ & Hlast).
  split; [exact Hdup |]. split; [exact Hr |]. split; [exact Hs |].
  exists pos. split; [exact Hpos |]. split.
  - rewrite Hsize. vm_compute. reflexivity.
  - apply Hlast. split; [reflexivity |].
    intros [|[|[|j']]] Hlt; try lia; discriminate.
Defined.

Lemma Rtrunc_IZR (z : Z) : Rtrunc (IZR z) = z.
Proof.
  unfold Rtrunc. destruct (Rle_dec 0 (IZR z)) as [Hz | Hz].
  - symmetry. apply Int_part_spec. lra.
  - rewrite <- opp_IZR.
    rewrite <- (Int_part_spec (IZR (- z)) (- z)); [lia | lra].
Qed.

(** In exact arithmetic, a start angle of 90 degrees puts the first of
    four names at [(0, radius)]. *)
Lemma first_of_four_at_90 (radius : Z) :
  fits_float radius →
  point (H := real_arith) radius true 90 0 4 = Ok (0, radius)%Z.
Proof.
  intros Hr. rewrite point_fits;
    [| apply (bool_decide_unpack _); vm_compute; exact I | done].
  f_equal. unfold point_at, angle_at, to_int. simpl.
  change (IZR (-360 * Z.of_nat 0) / IZR (Z.of_nat 4))%R with (0 / 4)%R.
  replace ((90 + 0 / 4) * (PI / 180))%R with (PI / 2)%R by field.
  rewrite cos_PI2, sin_PI2, Rmult_0_r, Rmult_1_r.
  by rewrite (Rtrunc_IZR 0), Rtrunc_IZR.
Qed.

(** ** The network under [add_node] and [add_edge] *)

Lemma push_edges_nil net : push_edges [] net = net.
Proof. destruct net. unfold push_edges. simpl. by rewrite app_nil_r. Qed.

Lemma push_edges_app es1 es2 net :
  push_edges es2 (push_edges es1 net) = push_edges (es1 ++ es2) net.
Proof. unfold push_edges. simpl. by rewrite app_assoc. Qed.

Lemma node_ids_push es net : node_ids (push_edges es net) = node_ids net.
Proof. done. Qed.

Lemma net_edges_add_node nd net : net_edges (add_node nd net) = net_edges net.
Proof. unfold add_node. by case_bool_decide. Qed.

Lemma net_physics_add_node nd net :
  net_physics (add_node nd net) = net_physics net.
Proof. unfold add_node. by case_bool_decide. Qed.

Lemma node_ids_add_node nd net x :
  x ∈ node_ids (add_node nd net) ↔ x ∈ node_ids net ∨ x = n_id nd.
Proof.
  unfold add_node. case_bool_decide as Hin.
  - split; [by left | intros [? | ->]; done].
  - unfold node_ids. simpl. rewrite fmap_app, elem_of_app. simpl.
    by rewrite list_elem_of_singleton.
Qed.

Lemma add_edge_ok e net :
  e_from e ∈ node_ids net → e_to e ∈ node_ids net →
  add_edge e net = Ok (push_edges [e] net).
Proof.
  intros Hf Ht. unfold add_edge. by rewrite !bool_decide_eq_true_2.
Qed.

Lemma dict_getitem_Some {V} (d : gmap string V) k v :
  d !! k = Some v → dict_getitem d k = Ok v.
Proof. intros Hk. unfold dict_getitem. by rewrite Hk. Qed.

Lemma on_net_mk f c net : on_net f (mkWorld c net) = mkWorld c (f net).
Proof. done. Qed.

Lemma foldM_push {X} (body : world → X → result world)
    (h : X → list VisEdge) (xs : list X) (c : DiagramConfig) net :
  (∀ net' x, x ∈ xs → node_ids net' = node_ids net →
             body (mkWorld c net') x
             = Ok (mkWorld c (push_edges (h x) net'))) →
  foldM body (mkWorld c net) xs = Ok (mkWorld c (push_edges (xs ≫= h) net)).
Proof.
  revert net. induction xs as [|x xs IH]; intros net Hbody; simpl.
  - by rewrite push_edges_nil.
  - rewrite Hbody by (done || apply list_elem_of_here). simpl.
    rewrite IH.
    + by rewrite push_edges_app.
    + intros net' y Hy Hids. apply Hbody; [by apply list_elem_of_further | done].
Qed.

Lemma add_nodes_ok (pos : gmap string (Z * Z))
    (mk : DiagramConfig → string → Z * Z → VisNode) (names : list string)
    (c : DiagramConfig) net :
  (∀ c n xy, n_id (mk c n xy) = n) →
  (∀ n, n ∈ names → is_Some (pos !! n)) →
  ∃ net',
    foldM (λ w n, xy ← dict_getitem pos n;
                  Ok (on_net (add_node (mk (w_cfg w) n xy)) w))
          (mkWorld c net) names = Ok (mkWorld c net')
    ∧ net_edges net' = net_edges net
    ∧ net_physics net' = net_physics net
    ∧ ∀ x, x ∈ node_ids net' ↔ x ∈ node_ids net ∨ x ∈ names.
Proof.
  intros Hid. revert net.
  induction names as [|n names IH]; intros net Hpos; simpl.
  - exists net. repeat split; try done.
    + by left.
    + intros [? | Hx]; [done | by apply elem_of_nil in Hx].
  - destruct (Hpos n) as [xy Hxy]; [apply list_elem_of_here |].
    rewrite (dict_getitem_Some _ _ _ Hxy). simpl. rewrite on_net_mk. simpl.
    destruct (IH (add_node (mk c n xy) net)) as (net' & -> & He & Hp & Hn).
    { intros m Hm. apply Hpos. by apply list_elem_of_further. }
    exists net'. split; [done |].
    rewrite He, Hp, net_edges_add_node, net_physics_add_node.
    repeat split; try done.
    + intros Hx. apply Hn in Hx as [Hx | Hx].
      * apply node_ids_add_node in Hx as [? | ->]; [by left | right].
        rewrite Hid. apply list_elem_of_here.
      * right. by apply list_elem_of_further.
    + intros [Hx | Hx]; apply Hn.
      * left. apply node_ids_add_node. by left.
      * apply elem_of_cons in Hx as [-> | Hx]; [| by right].
        left. apply node_ids_add_node. right. by rewrite Hid.
Qed.

Lemma list_getitem_mod (nodes : list string) (i : nat) (step : Z) :
  i < length nodes →
  let j := ((Z.of_nat i + step) `mod` Z.of_nat (length nodes))%Z in
  list_getitem nodes j = Ok (nodes !!! Z.to_nat j)
  ∧ nodes !! Z.to_nat j = Some (nodes !!! Z.to_nat j).
Proof.
  intros Hi j.
  assert (Hj : (0 ≤ j < Z.of_nat (length nodes))%Z).
  { apply Z.mod_pos_bound. lia. }
  destruct (lookup_lt_is_Some_2 nodes (Z.to_nat j)) as [v Hv]; [lia |].
  unfold list_getitem.
  rewrite (bool_decide_eq_true_2 (0 ≤ j)%Z) by lia. cbv zeta iota.
  rewrite (bool_decide_eq_true_2 (0 ≤ j)%Z) by lia.
  rewrite Hv. by rewrite (list_lookup_total_correct _ _ _ Hv).
Qed.

Lemma filter_bind_cross cfg (links : list (string * string)) :
  (links ≫= λ p, if decide (link_drawn cfg p)
                 then [cross_edge p.1 p.2] else [])
  = (λ p, cross_edge p.1 p.2) <$> filter (link_drawn cfg) links.
Proof.
  induction links as [|p links IH]; [done |].
  rewrite bind_cons, IH, filter_cons.
  by destruct (decide (link_drawn cfg p)).
Qed.

(** ** Graph builder *)

Section BuilderFacts.
Context `{Arith}.

Lemma positions_cover names radius cw start n :
  n ∈ names → is_Some (positions_at names radius cw start !! n).
Proof.
  intros Hn. apply elem_of_dom. rewrite positions_at_dom.
  by apply elem_of_list_to_set.
Qed.

(** One pass of a ring loop appends the ring edge of its index and
    leaves the configuration alone. *)
Lemma ring_step (nodes : list string) (pool : list Edge) (step : Z)
    (arrows : string) (c : DiagramConfig) net (i : nat) (u : string) :
  (∀ x, x ∈ nodes → x ∈ node_ids net) →
  (i, u) ∈ enumerate nodes →
  (v ← list_getitem nodes
         ((Z.of_nat i + step) `mod` Z.of_nat (length nodes));
   try_net (add_edge (ring_edge u v (edge_label u v pool) arrows))
           (mkWorld c net))
  = Ok (mkWorld c (push_edges [ring_edge_at nodes pool step arrows i u] net)).
Proof.
  intros Hids (j & -> & Hu)%enumerate_from_lookup. simpl.
  destruct (list_getitem_mod nodes j step) as [Hget Hv].
  { by apply lookup_lt_Some in Hu. }
  rewrite Hget. simpl. unfold try_net. simpl.
  rewrite add_edge_ok; [done | |]; simpl; apply Hids.
  - apply list_elem_of_lookup. eauto.
  - apply list_elem_of_lookup. eauto.
Qed.

Lemma ring_loop (nodes_of : DiagramConfig → list string)
    (pool_of : DiagramConfig → list Edge) (step : Z) (arrows : string)
    (c : DiagramConfig) net :
  (∀ x, x ∈ nodes_of c → x ∈ node_ids net) →
  foldM (λ w '(i, u),
           v ← list_getitem (nodes_of (w_cfg w))
                 ((Z.of_nat i + step)
                  `mod` Z.of_nat (length (nodes_of (w_cfg w))));
           try_net (add_edge (ring_edge u v
                                (edge_label u v (pool_of (w_cfg w))) arrows))
                   w)
        (mkWorld c net) (enumerate (nodes_of c))
  = Ok (mkWorld c
          (push_edges (ring_edges (nodes_of c) (pool_of c) step arrows) net)).
Proof.
  intros Hids.
  rewrite (foldM_push _ (λ '(i, u),
             [ring_edge_at (nodes_of c) (pool_of c) step arrows i u])).
  - unfold enumerate. by rewrite enumerate_from_bind.
  - intros net' [i u] Hin Hnet'. simpl. apply ring_step; [| done].
    intros x Hx. rewrite Hnet'. by apply Hids.
Qed.

Lemma cross_loop (c : DiagramConfig) net :
  (∀ x, x ∈ outer_nodes c ∨ x ∈ inner_nodes c → x ∈ node_ids net) →
  foldM (λ w '(o, i),
           if bool_decide (o ∈ outer_nodes (w_cfg w)
                           ∧ i ∈ inner_nodes (w_cfg w))
           then try_net (add_edge (cross_edge o i)) w
           else Ok w)
        (mkWorld c net) (cross_links c)
  = Ok (mkWorld c
          (push_edges ((λ p, cross_edge p.1 p.2)
                         <$> filter (link_drawn c) (cross_links c)) net)).
Proof.
  intros Hids. rewrite <- filter_bind_cross.
  apply foldM_push. intros net' [o i] _ Hnet'.
  unfold link_drawn. simpl. case_bool_decide as Hd.
  - rewrite decide_True by done. destruct Hd as [Ho Hi].
    unfold try_net. simpl.
    rewrite add_edge_ok; [done | |]; simpl; rewrite Hnet'; apply Hids; auto.
  - rewrite decide_False by done. by rewrite push_edges_nil.
Qed.

(** A layout beyond the floats stops the builder before it draws
    anything. *)
Lemma build_network_overflow cfg :
  ¬ layout_ok cfg → build_network cfg = Raise OverflowError.
Proof.
  intros Hno. unfold build_network. cbv zeta. rewrite !on_net_mk. simpl.
  destruct (decide (ring_fits (inner_nodes cfg) (inner_radius cfg)
                      (start_angle_deg cfg))) as [Hi | Hi].
  - rewrite (circle_positions_ok _ _ _ _ Hi). simpl.
    rewrite circle_positions_overflow; [done |].
    intros Ho. apply Hno. by split.
  - by rewrite (circle_positions_overflow _ _ _ _ Hi).
Qed.

(** Within the floats the builder returns and hands the configuration
    back as it got it; the edges of the graph are the outer ring, then
    the inner ring, then the cross-links. *)
Lemma build_network_edges cfg :
  layout_ok cfg →
  ∃ net, build_network cfg = Ok (net, cfg)
    ∧ net_edges net
      = ring_edges (outer_nodes cfg) (outer_edges cfg) 1 ""
        ++ ring_edges (inner_nodes cfg) (inner_edges cfg) (-1) "to"
        ++ cross_edges cfg
    ∧ net_physics net = physics cfg
    ∧ ∀ x, x ∈ node_ids net ↔ x ∈ outer_nodes cfg ∨ x ∈ inner_nodes cfg.
Proof.
  intros [Hfi Hfo].
  unfold build_network. cbv zeta. rewrite !on_net_mk. simpl.
  rewrite (circle_positions_ok _ _ _ _ Hfi). simpl.
  rewrite (circle_positions_ok _ _ _ _ Hfo). simpl.
  set (net0 := toggle_physics _ _).
  destruct (add_nodes_ok
              (positions_at (outer_nodes cfg) (outer_radius cfg) true
                 (start_angle_deg cfg))
              outer_node (outer_nodes cfg) cfg net0)
    as (net1 & -> & He1 & Hp1 & Hn1); [done | apply positions_cover |].
  simpl.
  destruct (add_nodes_ok
              (positions_at (inner_nodes cfg) (inner_radius cfg) true
                 (start_angle_deg cfg))
              inner_node (inner_nodes cfg) cfg net1)
    as (net2 & -> & He2 & Hp2 & Hn2); [done | apply positions_cover |].
  simpl.
  assert (Hids : ∀ x, x ∈ node_ids net2
                      ↔ x ∈ outer_nodes cfg ∨ x ∈ inner_nodes cfg).
  { intros x. rewrite Hn2, Hn1. unfold net0, node_ids. simpl.
    rewrite elem_of_nil. tauto. }
  rewrite (ring_loop outer_nodes outer_edges 1 "" cfg net2)
    by (intros x Hx; apply Hids; by left).
  simpl.
  rewrite (ring_loop inner_nodes inner_edges (-1) "to" cfg)
    by (intros x Hx; apply Hids; by right).
  simpl.
  assert (He : net_edges net2 = []).
  { by rewrite He2, He1. }
  assert (Hp : net_physics net2 = physics cfg).
  { by rewrite Hp2, Hp1. }
  unfold cross_edges. destruct (show_cross_links cfg).
  - rewrite cross_loop by (intros x Hx; by apply Hids).
    simpl. eexists. split; [done |]. simpl. rewrite He. simpl.
    rewrite <- app_assoc. done.
  - simpl. eexists. split; [done |]. simpl. rewrite He. simpl.
    by rewrite app_nil_r.
Qed.

End BuilderFacts.

Lemma filter_keep_all {A} (P : A → Prop) `{∀ x, Decision (P x)} (l : list A) :
  Forall P l → filter P l = l.
Proof.
  induction 1 as [|x l Hx _ IH]; [done |].
  by rewrite filter_cons_True, IH.
Qed.

Lemma filter_drop_all {A} (P : A → Prop) `{∀ x, Decision (P x)} (l : list A) :
  Forall (λ x, ¬ P x) l → filter P l = [].
Proof.
  induction 1 as [|x l Hx _ IH]; [done |].
  by rewrite filter_cons_False.
Qed.

Lemma ring_edges_Forall (P : VisEdge → Prop) nodes pool step arrows :
  (∀ u v lbl, P (ring_edge u v lbl arrows)) →
  Forall P (ring_edges nodes pool step arrows).
Proof.
  intros HP. apply Forall_lookup. intros i e. unfold ring_edges.
  rewrite list_lookup_imap. destruct (nodes !! i); [| done].
  simpl. intros [= <-]. apply HP.
Qed.

Lemma cross_edges_Forall (P : VisEdge → Prop) cfg :
  (∀ p, link_drawn cfg p → P (cross_edge p.1 p.2)) →
  Forall P (cross_edges cfg).
Proof.
  intros HP. unfold cross_edges.
  destruct (show_cross_links cfg); [| constructor].
  apply Forall_fmap, Forall_forall. intros p Hp.
  apply list_elem_of_filter in Hp as [Hp _]. by apply HP.
Qed.

Lemma ring_edges_lookup nodes pool step arrows i u :
  nodes !! i = Some u →
  ∃ v, nodes !! Z.to_nat ((Z.of_nat i + step) `mod` Z.of_nat (length nodes))
       = Some v
     ∧ ring_edges nodes pool step arrows !! i
       = Some (ring_edge u v (edge_label u v pool) arrows).
Proof.
  intros Hu.
  destruct (list_getitem_mod nodes i step) as [_ Hv].
  { by apply lookup_lt_Some in Hu. }
  eexists. split; [exact Hv |].
  unfold ring_edges. rewrite list_lookup_imap, Hu. done.
Qed.

Lemma edge_label_first_match u v pool :
  first_match u v pool (edge_label u v pool).
Proof.
  induction pool as [|e pool IH]; simpl.
  - right. split; [constructor | done].
  - case_bool_decide as He.
    + left. exists [], e, pool. split_and!; done || constructor.
    + destruct IH as [(pre & e' & post & -> & Hm & Hpre & Hl) | [Hnone Hl]].
      * left. exists (e :: pre), e', post.
        split_and!; done || by constructor.
      * right. split; [by constructor | done].
Qed.

(** The three families are told apart by their style. *)
Lemma built_families (es_out es_in es_cross : list VisEdge) :
  Forall (λ e, e_arrows e = "" ∧ e_dashes e = None) es_out →
  Forall (λ e, e_arrows e = "to" ∧ e_dashes e = None) es_in →
  Forall (λ e, e_arrows e = "to" ∧ e_dashes e = Some true) es_cross →
  let es := es_out ++ es_in ++ es_cross in
  filter no_arrow es = es_out
  ∧ filter solid_arrow es = es_in
  ∧ filter dashed es = es_cross.
Proof.
  intros Hout Hin Hcross es. subst es. rewrite !filter_app.
  assert (Hstyle : ∀ (P Q : VisEdge → Prop) l,
             Forall P l → (∀ e, P e → Q e) → Forall Q l).
  { intros P Q l Hl HPQ. eapply Forall_impl; [exact Hl | exact HPQ]. }
  repeat split.
  - rewrite (filter_keep_all _ es_out), (filter_drop_all _ es_in),
      (filter_drop_all _ es_cross), ?app_nil_r; try done;
      eapply Hstyle; eauto; unfold no_arrow; intros e [Ha Hd]; congruence.
  - rewrite (filter_drop_all _ es_out), (filter_keep_all _ es_in),
      (filter_drop_all _ es_cross), ?app_nil_r; try done;
      eapply Hstyle; eauto; unfold solid_arrow; intros e [Ha Hd];
      try done; intros [? ?]; congruence.
  - rewrite (filter_drop_all _ es_out), (filter_drop_all _ es_in),
      (filter_keep_all _ es_cross); try done;
      eapply Hstyle; eauto; unfold dashed; intros e [Ha Hd]; congruence.
Qed.

Lemma build_network_families `{Arith} cfg :
  layout_ok cfg →
  ∃ net, build_network cfg = Ok (net, cfg)
    ∧ filter no_arrow (net_edges net)
      = ring_edges (outer_nodes cfg) (outer_edges cfg) 1 ""
    ∧ filter solid_arrow (net_edges net)
      = ring_edges (inner_nodes cfg) (inner_edges cfg) (-1) "to"
    ∧ filter dashed (net_edges net) = cross_edges cfg.
Proof.
  intros Hfit.
  destruct (build_network_edges cfg Hfit) as (net & Hnet & Hedges & _).
  exists net. split; [done |]. rewrite Hedges.
  apply built_families.
  - by apply ring_edges_Forall.
  - by apply ring_edges_Forall.
  - by apply cross_edges_Forall.
Qed.

Lemma default_layout_ok : layout_ok default_config.
Proof. apply (bool_decide_unpack _). vm_compute. exact I. Qed.

(** C4.  For every configuration on which the layout goes through (the
    radii and the start angle have a float, or there is no node to
    place) the builder returns a graph in which the edges without
    arrowhead are, index by index, one edge from [outer_nodes[i]] to
    [outer_nodes[(i+1) % N]], and the solid edges with an arrowhead at
    the target are, index by index, one edge from [inner_nodes[i]] to
    [inner_nodes[(i-1) % N]]; the label of each is that of the first
    stored edge joining the two nodes in either direction, and [""]
    when there is none. *)
Theorem ring_edges_by_index `{Arith} (cfg : DiagramConfig) :
  layout_ok cfg →
  ∃ net, build_network cfg = Ok (net, cfg) ∧
    let outer := filter no_arrow (net_edges net) in
    let inner := filter solid_arrow (net_edges net) in
    let No := length (outer_nodes cfg) in
    let Ni := length (inner_nodes cfg) in
    length outer = No ∧ length inner = Ni ∧
    (∀ i u, outer_nodes cfg !! i = Some u →
       ∃ v lbl,
         outer_nodes cfg !! Z.to_nat ((Z.of_nat i + 1) `mod` Z.of_nat No)
         = Some v
         ∧ outer !! i
           = Some {| e_from := u; e_to := v; e_label := Some lbl;
                     e_arrows := ""; e_dashes := None; e_color := None;
                     e_smooth := true |}
         ∧ first_match u v (outer_edges cfg) lbl) ∧
    (∀ i u, inner_nodes cfg !! i = Some u →
       ∃ v lbl,
         inner_nodes cfg !! Z.to_nat ((Z.of_nat i - 1) `mod` Z.of_nat Ni)
         = Some v
         ∧ inner !! i
           = Some {| e_from := u; e_to := v; e_label := Some lbl;
                     e_arrows := "to"; e_dashes := None; e_color := None;
                     e_smooth := true |}
         ∧ first_match u v (inner_edges cfg) lbl).
Proof.
  intros Hfit.
  destruct (build_network_families cfg Hfit) as (net & Hnet & Hout & Hin & _).
  exists net. split; [done |]. cbv zeta. rewrite Hout, Hin.
  unfold ring_edges at 1 2. rewrite !length_imap.
  split; [done |]. split; [done |]. split.
  - intros i u Hu.
    destruct (ring_edges_lookup (outer_nodes cfg) (outer_edges cfg) 1 "" i u Hu)
      as (v & Hv & He).
    exists v, (edge_label u v (outer_edges cfg)).
    split; [done |]. split; [done |]. apply edge_label_first_match.
  - intros i u Hu.
    destruct (ring_edges_lookup (inner_nodes cfg) (inner_edges cfg) (-1) "to"
                i u Hu) as (v & Hv & He).
    exists v, (edge_label u v (inner_edges cfg)).
    split; [done |]. split; [done |]. apply edge_label_first_match.
Qed.

Lemma ring_edges_by_index_witness :
  layout_ok default_config
  ∧ ∃ net, build_network (H := real_arith) default_config
           = Ok (net, default_config)
      ∧ length (filter no_arrow (net_edges net)) = 5
      ∧ length (filter solid_arrow (net_edges net)) = 5.
Proof.
  assert (Hfit : layout_ok default_config).
  { apply (bool_decide_unpack _). vm_compute. exact I. }
  split; [exact Hfit |].
  destruct (ring_edges_by_index (H := real_arith) default_config Hfit)
    as (net & Hrun & Hout & Hin & _).
  exists net. split; [exact Hrun |]. split; [exact Hout | exact Hin].
Defined.

(** C7.  On every configuration on which the layout goes through the
    builder returns.  With [show_cross_links] false the graph has no
    dashed edge; with it true the dashed edges are, in order, one gray,
    unlabeled edge with an arrowhead at the inner node for each stored
    pair whose outer name is in [outer_nodes] and whose inner name is
    in [inner_nodes]; the other pairs leave no trace. *)
Theorem cross_links_drawn `{Arith} (cfg : DiagramConfig) :
  layout_ok cfg →
  ∃ net, build_network cfg = Ok (net, cfg) ∧
    filter dashed (net_edges net)
    = if show_cross_links cfg
      then (λ p, {| e_from := p.1; e_to := p.2; e_label := None;
                    e_arrows := "to"; e_dashes := Some true;
                    e_color := Some "gray"; e_smooth := true |})
           <$> filter (λ p, p.1 ∈ outer_nodes cfg ∧ p.2 ∈ inner_nodes cfg)
                      (cross_links cfg)
      else [].
Proof.
  intros Hfit.
  destruct (build_network_families cfg Hfit) as (net & Hnet & _ & _ & Hcross).
  exists net. split; [done |]. by rewrite Hcross.
Qed.

Lemma cross_links_drawn_witness :
  let cfg := set_cross_links [("Outer", "Inner"); ("Metadata", "Data")]
               default_config in
  layout_ok cfg
  ∧ ∃ net, build_network (H := real_arith) cfg = Ok (net, cfg)
      ∧ filter dashed (net_edges net) = [cross_edge "Metadata" "Data"].
Proof.
  intros cfg.
  assert (Hfit : layout_ok cfg).
  { apply (bool_decide_unpack _). vm_compute. exact I. }
  split; [exact Hfit |].
  destruct (cross_links_drawn (H := real_arith) cfg Hfit)
    as (net & Hrun & Hdashed).
  exists net. split; [exact Hrun |]. rewrite Hdashed.
  vm_compute. reflexivity.
Defined.

(** C8.  Building the graph leaves the configuration as it was.  For
    every configuration, either the layout does not go through and the
    call raises [OverflowError], or [build_network] returns and the
    configuration object is, after the call, the one it was handed:
    [cross_links] and every other field are unchanged.  In particular
    every stored pair with an endpoint outside the current node lists,
    which gets no edge in the graph, is still in [cross_links]
    afterwards. *)
Theorem build_keeps_config `{Arith} (cfg : DiagramConfig) :
  (¬ layout_ok cfg → build_network cfg = Raise OverflowError)
  ∧ (layout_ok cfg →
     ∃ net cfg', build_network cfg = Ok (net, cfg')
       ∧ cfg' = cfg
       ∧ cross_links cfg' = cross_links cfg
       ∧ ∀ o i, (o, i) ∈ cross_links cfg →
           ¬ (o ∈ outer_nodes cfg ∧ i ∈ inner_nodes cfg) →
           (∀ e, e ∈ net_edges net → dashed e →
                 ¬ (e_from e = o ∧ e_to e = i))
           ∧ (o, i) ∈ cross_links cfg').
Proof.
  split; [apply build_network_overflow |]. intros Hfit.
  destruct (build_network_families cfg Hfit) as (net & Hnet & _ & _ & Hcross).
  exists net, cfg. split; [done |]. split; [done |]. split; [done |].
  intros o i Hin Hout. split; [| done].
  intros e He Hd [Hf Ht].
  assert (Hc : e ∈ cross_edges cfg).
  { rewrite <- Hcross. by apply list_elem_of_filter. }
  unfold cross_edges in Hc. destruct (show_cross_links cfg).
  - apply list_elem_of_fmap in Hc as ([o' i'] & -> & Hp).
    apply list_elem_of_filter in Hp as [Hp _].
    simpl in Hf, Ht. subst o' i'. by apply Hout.
  - by apply elem_of_nil in Hc.
Qed.

Lemma build_keeps_config_witness :
  let cfg := set_cross_links [("Outer", "Inner"); ("Metadata", "Data")]
               default_config in
  layout_ok cfg
  ∧ ∃ net, build_network (H := real_arith) cfg = Ok (net, cfg)
      ∧ ("Outer", "Inner") ∈ cross_links cfg
      ∧ ∀ e, e ∈ net_edges net → dashed e →
             ¬ (e_from e = "Outer" ∧ e_to e = "Inner").
Proof.
  intros cfg.
  assert (Hfit : layout_ok cfg).
  { apply (bool_decide_unpack _). vm_compute. exact I. }
  assert (Hin : ("Outer", "Inner") ∈ cross_links cfg).
  { apply list_elem_of_here. }
  assert (Hout : ¬ ("Outer" ∈ outer_nodes cfg ∧ "Inner" ∈ inner_nodes cfg)).
  { apply (bool_decide_unpack _). vm_compute. exact I. }
  split; [exact Hfit |].
  destruct (proj2 (build_keeps_config (H := real_arith) cfg) Hfit)
    as (net & cfg' & Hrun & -> & _ & Hstale).
  exists net. split; [exact Hrun |]. split; [exact Hin |].
  exact (proj1 (Hstale "Outer" "Inner" Hin Hout)).
Defined.

(** C2, as the specification words it: refuted.  Walking the inner ring
    of the default configuration from index 0, the first edge drawn
    goes from "Knowledge" to "Interactions" and is labelled
    "Informs further"; the labels do not start with "Interpreted as". *)
Lemma default_inner_labels_counterexample :
  ∃ net, build_network (H := real_arith) default_config
         = Ok (net, default_config)
    ∧ e_label <$> filter solid_arrow (net_edges net)
      ≠ Some <$> ["Interpreted as"; "Ordered as"; "Processed as";
                  "Produce"; "Informs further"].
Proof.
  destruct (build_network_families (H := real_arith) default_config
              default_layout_ok)
    as (net & Hnet & _ & Hin & _).
  exists net. split; [done |]. rewrite Hin. vm_compute. discriminate.
Qed.

(** C2 (amended).  For the default configuration the inner ring has
    exactly 5 solid edges with an arrowhead whose labels, walking from
    node [i] to node [i-1 mod 5] from [i = 0], are "Informs further",
    "Interpreted as", "Ordered as", "Processed as", "Produce"; the outer
    ring has exactly 5 edges without arrowhead, each with the empty
    label; and, [show_cross_links] being true, there are exactly
    [25 = len(outer_nodes) * len(inner_nodes)] dashed edges. *)
Theorem default_graph_edges `{Arith} :
  ∃ net, build_network default_config = Ok (net, default_config) ∧
    filter solid_arrow (net_edges net)
    = [ring_edge "Knowledge" "Interactions" "Informs further" "to";
       ring_edge "Models" "Knowledge" "Interpreted as" "to";
       ring_edge "Data" "Models" "Ordered as" "to";
       ring_edge "Objects" "Data" "Processed as" "to";
       ring_edge "Interactions" "Objects" "Produce" "to"] ∧
    filter no_arrow (net_edges net)
    = [ring_edge "Concepts" "Standards" "" "";
       ring_edge "Standards" "Metadata" "" "";
       ring_edge "Metadata" "Formats" "" "";
       ring_edge "Formats" "Protocols" "" "";
       ring_edge "Protocols" "Concepts" "" ""] ∧
    show_cross_links default_config = true ∧
    length (filter dashed (net_edges net)) = 25 ∧
    length (outer_nodes default_config) * length (inner_nodes default_config)
    = 25.
Proof.
  destruct (build_network_families default_config default_layout_ok)
    as (net & Hnet & Hout & Hin & Hcross).
  exists net. split; [done |]. rewrite Hout, Hin, Hcross.
  repeat split; vm_compute; reflexivity.
Qed.

(** ** Editing surface *)

(** C9.  A node-order update whose input yields fewer than 3 non-empty
    names reports the validation error and returns the configuration as
    it was, node list and label mapping included. *)
Theorem short_node_list_rejected (cfg : DiagramConfig) (input : string) :
  length (parse_names input) < 3 →
  on_update_inner input cfg
  = (cfg, Error "Please provide at least 3 inner nodes." None)
  ∧ on_update_outer input cfg
    = (cfg, Error "Please provide at least 3 outer nodes." None).
Proof.
  intros Hshort. unfold on_update_inner, on_update_outer. cbv zeta.
  by rewrite bool_decide_eq_false_2 by lia.
Qed.

Lemma short_node_list_rejected_witness :
  length (parse_names "Knowledge, , Models,") < 3
  ∧ on_update_inner "Knowledge, , Models," default_config
    = (default_config, Error "Please provide at least 3 inner nodes." None).
Proof.
  assert (Hshort : length (parse_names "Knowledge, , Models,") < 3).
  { vm_compute. lia. }
  split; [exact Hshort |].
  exact (proj1 (short_node_list_rejected default_config
                  "Knowledge, , Models," Hshort)).
Defined.

Lemma parse_token_total (token : string) :
  parse_token token = Ok (token_pair token).
Proof.
  unfold parse_token, token_pair, PyStr.contains, PyStr.split1. cbv zeta.
  destruct (PyStr.partition arrow (PyStr.strip token)) as [[o i] |]; [done |].
  by destruct (PyStr.partition ascii_arrow (PyStr.strip token)) as [[o i] |].
Qed.

Lemma token_loop_total (tokens : list string) (acc : list (string * string)) :
  foldM (λ (pairs : list (string * string)) token,
           p ← parse_token token;
           match p with
           | Some oi => Ok (pairs ++ [oi])
           | None => Ok pairs
           end)
        acc tokens
  = Ok (acc ++ omap token_pair tokens).
Proof.
  revert acc. induction tokens as [|t tokens IH]; intros acc; simpl.
  - by rewrite app_nil_r.
  - rewrite parse_token_total. simpl.
    destruct (token_pair t) as [oi |]; simpl; rewrite IH; [| done].
    by rewrite <- app_assoc.
Qed.

(** C6, as the specification words it: refuted.  The input "foo" holds
    a malformed token; the handler reports success and empties
    [cross_links]. *)
Lemma malformed_token_counterexample :
  malformed "foo"
  ∧ on_set_cross_links "foo" default_config
    = (set_cross_links [] default_config, Success "Cross-links updated.")
  ∧ cross_links default_config ≠ [].
Proof. repeat split; vm_compute; done. Qed.

(** C6 (amended).  The set-cross-links operation never reports an
    error: it reports success and replaces [cross_links] by the pairs of
    the tokens of the input, in order, a malformed token being skipped
    and contributing no pair (by the full product outer × inner when the
    input is blank). *)
Theorem cross_links_input_accepted (cfg : DiagramConfig) (pairs_in : string) :
  on_set_cross_links pairs_in cfg
  = (set_cross_links
       (if PyStr.truthy (PyStr.strip pairs_in)
        then omap token_pair (PyStr.split_comma pairs_in)
        else cartesian (outer_nodes cfg) (inner_nodes cfg)) cfg,
     Success "Cross-links updated.")
  ∧ ∀ token, malformed token → token_pair token = None.
Proof.
  split.
  - unfold on_set_cross_links, parse_pairs.
    destruct (PyStr.truthy (PyStr.strip pairs_in)); [| done].
    by rewrite token_loop_total.
  - intros token [Hu Ha]. unfold token_pair. cbv zeta.
    unfold PyStr.contains in Hu, Ha.
    destruct (PyStr.partition arrow (PyStr.strip token)); [done |].
    by destruct (PyStr.partition ascii_arrow (PyStr.strip token)).
Qed.

Example cross_links_import_scenario :
  on_set_cross_links "Outer→Inner, Metadata->Data" default_config
  = (set_cross_links [("Outer", "Inner"); ("Metadata", "Data")] default_config,
     Success "Cross-links updated.").
Proof. vm_compute. reflexivity. Qed.

(** ** Serialization *)

Lemma Edge_kw_asdict (e : Dyn.Edge) : Dyn.Edge_kw (Dyn.asdict_edge e) = Ok e.
Proof. by destruct e. Qed.

Lemma edges_round_trip (es : list Dyn.Edge) :
  Dyn.edges_from (JArr (Dyn.asdict_edge <$> es)) = Ok es.
Proof.
  unfold Dyn.edges_from. simpl.
  induction es as [|e es IH]; [done |].
  rewrite fmap_cons. cbn [mapM_r]. rewrite Edge_kw_asdict. simpl.
  by rewrite IH.
Qed.

Lemma tuples_round_trip (ts : list (list json)) :
  Dyn.tuples_from (JArr (JArr <$> ts)) = Ok ts.
Proof.
  unfold Dyn.tuples_from. simpl.
  induction ts as [|t ts IH]; [done |].
  rewrite fmap_cons. cbn [mapM_r]. simpl. by rewrite IH.
Qed.

Lemma dyn_round_trip `{Codec} (d : Dyn.DiagramConfig) :
  faithful → Dyn.from_json (Dyn.to_json d) = Ok d.
Proof.
  intros Hcodec. unfold Dyn.from_json, Dyn.to_json, Dyn.asdict.
  rewrite Hcodec. simpl.
  rewrite !edges_round_trip. simpl.
  rewrite tuples_round_trip. simpl.
  by destruct d.
Qed.

#[local] Instance label_member_inj :
  Inj (=) (=) (λ kv : string * string, (kv.1, JStr kv.2)).
Proof. intros [a b] [c d] [= -> ->]. done. Qed.

#[local] Instance JStr_inj : Inj (=) (=) JStr.
Proof. by intros a b [= ->]. Qed.

#[local] Instance embed_edge_inj : Inj (=) (=) embed_edge.
Proof. intros [a b c] [a' b' c'] [= -> -> ->]. done. Qed.

#[local] Instance link_tuple_inj :
  Inj (=) (=) (λ p : string * string, [JStr p.1; JStr p.2]).
Proof. intros [a b] [c d] [= -> ->]. done. Qed.

Lemma embed_labels_inj (m m' : gmap string string) :
  (λ kv : string * string, (kv.1, JStr kv.2)) <$> map_to_list m
  = (λ kv : string * string, (kv.1, JStr kv.2)) <$> map_to_list m' →
  m = m'.
Proof.
  intros Heq. apply (inj (fmap _)) in Heq.
  rewrite <- (list_to_map_to_list m), <- (list_to_map_to_list m').
  by rewrite Heq.
Qed.

Lemma embed_inj (c c' : DiagramConfig) : embed c = embed c' → c = c'.
Proof.
  destruct c, c'. unfold embed. simpl.
  intros [= Hin Hil Hie Hon Hol Hoe Hcl -> -> -> -> -> ->].
  apply (inj (fmap JStr)) in Hin, Hon.
  apply (inj (fmap embed_edge)) in Hie, Hoe.
  apply (inj (fmap _)) in Hcl.
  apply embed_labels_inj in Hil, Hol.
  by subst.
Qed.

(** C1.  With a faithful codec, decoding the encoding of a
    configuration gives the configuration back, field for field: for
    every configuration object Python can hold after an import or an
    edit, and so for every configuration built of node names, labels,
    edges, pairs, booleans and integers, which its Python object
    determines. *)
Theorem json_round_trip `{Codec} :
  faithful →
  (∀ d : Dyn.DiagramConfig, Dyn.from_json (Dyn.to_json d) = Ok d)
  ∧ (∀ c : DiagramConfig, from_json (to_json c) = Ok (embed c))
  ∧ (∀ c c' : DiagramConfig, embed c = embed c' → c = c').
Proof.
  intros Hcodec. split; [| split].
  - intros d. by apply dyn_round_trip.
  - intros c. by apply dyn_round_trip.
  - exact embed_inj.
Qed.

Lemma json_round_trip_witness :
  faithful (H := document_codec)
  ∧ from_json (H := document_codec) (to_json default_config)
    = Ok (embed default_config).
Proof.
  assert (Hcodec : faithful (H := document_codec)).
  { intros v. reflexivity. }
  split; [exact Hcodec |].
  exact (proj1 (proj2 (json_round_trip (H := document_codec) Hcodec))
           default_config).
Defined.

Lemma is_Ok_Ok {A} (a : A) : is_Ok (Ok a).
Proof. by exists a. Qed.

Lemma not_is_Ok_Raise {A} (e : exn) : ¬ is_Ok (Raise (A := A) e).
Proof. by intros [a Ha]. Qed.

Lemma raises_iff_not_Ok {A} (r : result A) : raises r ↔ ¬ is_Ok r.
Proof.
  destruct r as [a | e]; split.
  - by intros [e He].
  - intros Hn. destruct Hn. apply is_Ok_Ok.
  - intros _. apply not_is_Ok_Raise.
  - intros _. by exists e.
Qed.

Lemma mapM_r_is_Ok {X Y} (f : X → result Y) (xs : list X) :
  is_Ok (mapM_r f xs) ↔ Forall (λ x, is_Ok (f x)) xs.
Proof.
  induction xs as [|x xs IH]; simpl.
  - split; [constructor | intros _; apply is_Ok_Ok].
  - rewrite Forall_cons, <- IH. destruct (f x) as [y | e]; simpl.
    + destruct (mapM_r f xs) as [ys | e]; simpl.
      * split; [intros _; split; apply is_Ok_Ok | intros _; apply is_Ok_Ok].
      * split; [by intros ?%not_is_Ok_Raise | by intros [_ ?%not_is_Ok_Raise]].
    + split; [by intros ?%not_is_Ok_Raise | by intros [?%not_is_Ok_Raise _]].
Qed.

Lemma forallb_field_names (ks : list string) :
  forallb (λ k, bool_decide (k ∈ Dyn.edge_fields)) ks = true
  ↔ Forall (λ k, k ∈ Dyn.edge_fields) ks.
Proof.
  induction ks as [|k ks IH]; simpl.
  - split; [constructor | done].
  - rewrite andb_true_iff, IH, Forall_cons, bool_decide_eq_true. done.
Qed.

Lemma Edge_kw_is_Ok (e : json) : is_Ok (Dyn.Edge_kw e) ↔ edge_object e.
Proof.
  unfold edge_object. destruct e as [| b | n | s | items | kvs];
    try (split; [by intros ?%not_is_Ok_Raise | by intros (? & ? & _)]).
  simpl.
  destruct (forallb _ kvs.*1) eqn:Hkeys.
  - apply forallb_field_names in Hkeys.
    destruct (member "source" kvs) as [s |] eqn:Hs,
             (member "target" kvs) as [t |] eqn:Ht.
    + split; [| intros _; apply is_Ok_Ok].
      intros _. exists kvs. rewrite Hs, Ht. eauto.
    + split; [by intros ?%not_is_Ok_Raise |].
      intros (? & [= <-] & _ & _ & Hn). rewrite Ht in Hn. by destruct Hn.
    + split; [by intros ?%not_is_Ok_Raise |].
      intros (? & [= <-] & _ & Hn & _). rewrite Hs in Hn. by destruct Hn.
    + split; [by intros ?%not_is_Ok_Raise |].
      intros (? & [= <-] & _ & Hn & _). rewrite Hs in Hn. by destruct Hn.
  - split; [by intros ?%not_is_Ok_Raise |].
    intros (? & [= <-] & Hk & _). apply forallb_field_names in Hk. congruence.
Qed.

Lemma chars_nil (s : string) : PyStr.chars s = [] ↔ s = "".
Proof.
  destruct s as [| c s]; [done |]. simpl.
  destruct (PyStr.starts_cont s); [destruct (PyStr.chars s) |]; done.
Qed.

Lemma edges_from_is_Ok (v : json) : is_Ok (Dyn.edges_from v) ↔ edge_list v.
Proof.
  unfold Dyn.edges_from.
  destruct v as [| b | n | s | items | kvs]; simpl;
    try (split; [by intros ?%not_is_Ok_Raise | done]).
  - rewrite <- chars_nil. destruct (PyStr.chars s) as [| ch chs]; simpl.
    + split; [done | intros _; apply is_Ok_Ok].
    + split; [by intros ?%not_is_Ok_Raise | done].
  - rewrite mapM_r_is_Ok. apply Forall_proper; [| done].
    intros e. apply Edge_kw_is_Ok.
  - destruct kvs as [| [k v] kvs]; simpl.
    + split; [done | intros _; apply is_Ok_Ok].
    + split; [by intros ?%not_is_Ok_Raise | done].
Qed.

Lemma iter_is_Ok (v : json) : is_Ok (iter v) ↔ iterable v.
Proof.
  destruct v; simpl;
    (split; [by intros ?%not_is_Ok_Raise | done])
    || (split; [done | intros _; apply is_Ok_Ok]).
Qed.

Lemma tuples_from_is_Ok (v : json) : is_Ok (Dyn.tuples_from v) ↔ link_list v.
Proof.
  unfold Dyn.tuples_from.
  destruct v as [| b | n | s | items | kvs]; simpl;
    try (split; [by intros ?%not_is_Ok_Raise | done]).
  - split; [done |]. intros _. apply mapM_r_is_Ok.
    apply Forall_fmap, Forall_forall. intros ch _. apply is_Ok_Ok.
  - rewrite mapM_r_is_Ok. apply Forall_proper; [| done].
    intros x. apply iter_is_Ok.
  - split; [done |]. intros _. apply mapM_r_is_Ok.
    apply Forall_fmap, Forall_forall. intros k _. apply is_Ok_Ok.
Qed.

(** What [from_json] computes on an object that has the six required
    members. *)
Lemma from_json_object `{Codec} s kvs v1 v2 v3 v4 v5 v6 :
  json_loads s = Ok (JObj kvs) →
  member "inner_nodes" kvs = Some v1 →
  member "inner_labels" kvs = Some v2 →
  member "inner_edges" kvs = Some v3 →
  member "outer_nodes" kvs = Some v4 →
  member "outer_labels" kvs = Some v5 →
  member "outer_edges" kvs = Some v6 →
  from_json s
  = (ie ← Dyn.edges_from v3;
     oe ← Dyn.edges_from v6;
     cl ← Dyn.tuples_from (default (JArr []) (member "cross_links" kvs));
     Ok (Dyn.mkConfig v1 v2 ie v4 v5 oe cl
           (default (JBool true) (member "show_cross_links" kvs))
           (default (JBool true) (member "lock_positions" kvs))
           (default (JInt 200) (member "inner_radius" kvs))
           (default (JInt 380) (member "outer_radius" kvs))
           (default (JInt 90) (member "start_angle_deg" kvs))
           (default (JBool false) (member "physics" kvs)))).
Proof.
  intros Hs H1 H2 H3 H4 H5 H6.
  unfold from_json, Dyn.from_json. rewrite Hs.
  unfold getitem, get. simpl.
  rewrite H1, H2, H3, H4, H5, H6. simpl.
  destruct (Dyn.edges_from v3); simpl; [| done].
  destruct (Dyn.edges_from v6); simpl; [| done].
  done.
Qed.

Lemma from_json_needs_fields `{Codec} s :
  is_Ok (from_json s) →
  ∃ kvs, json_loads s = Ok (JObj kvs)
    ∧ Forall (λ k, is_Some (member k kvs)) required_fields.
Proof.
  unfold from_json, Dyn.from_json. intros Hok.
  destruct (json_loads s) as [raw | e]; simpl in Hok;
    [| by apply not_is_Ok_Raise in Hok].
  destruct raw as [| b | n | str | items | kvs];
    try (by apply not_is_Ok_Raise in Hok).
  exists kvs. split; [done |].
  unfold getitem, get in Hok. simpl in Hok.
  destruct (member "inner_nodes" kvs) eqn:H1; simpl in Hok;
    [| by apply not_is_Ok_Raise in Hok].
  destruct (member "inner_labels" kvs) eqn:H2; simpl in Hok;
    [| by apply not_is_Ok_Raise in Hok].
  destruct (member "inner_edges" kvs) eqn:H3; simpl in Hok;
    [| by apply not_is_Ok_Raise in Hok].
  destruct (Dyn.edges_from _); simpl in Hok;
    [| by apply not_is_Ok_Raise in Hok].
  destruct (member "outer_nodes" kvs) eqn:H4; simpl in Hok;
    [| by apply not_is_Ok_Raise in Hok].
  destruct (member "outer_labels" kvs) eqn:H5; simpl in Hok;
    [| by apply not_is_Ok_Raise in Hok].
  destruct (member "outer_edges" kvs) eqn:H6; simpl in Hok;
    [| by apply not_is_Ok_Raise in Hok].
  unfold required_fields.
  repeat constructor; by rewrite ?H1, ?H2, ?H3, ?H4, ?H5, ?H6.
Qed.

Lemma required_members kvs :
  Forall (λ k, is_Some (member k kvs)) required_fields →
  ∃ v1 v2 v3 v4 v5 v6,
    member "inner_nodes" kvs = Some v1 ∧ member "inner_labels" kvs = Some v2
    ∧ member "inner_edges" kvs = Some v3 ∧ member "outer_nodes" kvs = Some v4
    ∧ member "outer_labels" kvs = Some v5 ∧ member "outer_edges" kvs = Some v6.
Proof.
  unfold required_fields. intros Hreq.
  apply Forall_cons in Hreq as [[v1 H1] Hreq].
  apply Forall_cons in Hreq as [[v2 H2] Hreq].
  apply Forall_cons in Hreq as [[v3 H3] Hreq].
  apply Forall_cons in Hreq as [[v4 H4] Hreq].
  apply Forall_cons in Hreq as [[v5 H5] Hreq].
  apply Forall_cons in Hreq as [[v6 H6] Hreq].
  by exists v1, v2, v3, v4, v5, v6.
Qed.

Lemma from_json_is_Ok `{Codec} (s : text) : is_Ok (from_json s) ↔ accepted s.
Proof.
  split.
  - intros Hok.
    destruct (from_json_needs_fields s Hok) as (kvs & Hs & Hreq).
    exists kvs. split; [done |]. split; [done |].
    destruct (required_members kvs Hreq)
      as (v1 & v2 & v3 & v4 & v5 & v6 & H1 & H2 & H3 & H4 & H5 & H6).
    rewrite (from_json_object s kvs v1 v2 v3 v4 v5 v6) in Hok by done.
    destruct (Dyn.edges_from v3) eqn:Hie; simpl in Hok;
      [| by apply not_is_Ok_Raise in Hok].
    destruct (Dyn.edges_from v6) eqn:Hoe; simpl in Hok;
      [| by apply not_is_Ok_Raise in Hok].
    destruct (Dyn.tuples_from _) eqn:Hcl in Hok; simpl in Hok;
      [| by apply not_is_Ok_Raise in Hok].
    split_and!.
    + intros v Hv. apply edges_from_is_Ok.
      replace v with v3 by congruence. rewrite Hie. apply is_Ok_Ok.
    + intros v Hv. apply edges_from_is_Ok.
      replace v with v6 by congruence. rewrite Hoe. apply is_Ok_Ok.
    + intros v Hv. apply tuples_from_is_Ok.
      rewrite Hv in Hcl. simpl in Hcl. rewrite Hcl. apply is_Ok_Ok.
  - intros (kvs & Hs & Hreq & Hie & Hoe & Hcl).
    destruct (required_members kvs Hreq)
      as (v1 & v2 & v3 & v4 & v5 & v6 & H1 & H2 & H3 & H4 & H5 & H6).
    rewrite (from_json_object s kvs v1 v2 v3 v4 v5 v6) by done.
    destruct (proj2 (edges_from_is_Ok v3) (Hie _ H3)) as [ie ->].
    destruct (proj2 (edges_from_is_Ok v6) (Hoe _ H6)) as [oe ->].
    simpl.
    assert (Hl : is_Ok (Dyn.tuples_from
                          (default (JArr []) (member "cross_links" kvs)))).
    { apply tuples_from_is_Ok.
      destruct (member "cross_links" kvs) as [v |] eqn:Hv; simpl.
      - by apply Hcl.
      - constructor. }
    destruct Hl as [cl ->]. simpl. apply is_Ok_Ok.
Qed.

(** C5, as the specification words it: refuted.  The document below is
    well formed and has the six required members, yet [from_json]
    raises: the one inner edge has no [target]. *)
Lemma from_json_edge_counterexample :
  let kvs :=
    [("inner_nodes", JArr []); ("inner_labels", JObj []);
     ("inner_edges", JArr [JObj [("source", JStr "Models")]]);
     ("outer_nodes", JArr []); ("outer_labels", JObj []);
     ("outer_edges", JArr [])] in
  json_loads (Document (JObj kvs)) = Ok (JObj kvs)
  ∧ Forall (λ k, is_Some (member k kvs)) required_fields
  ∧ from_json (Document (JObj kvs)) = Raise TypeError.
Proof.
  split; [reflexivity |]. split; [| reflexivity].
  unfold required_fields. repeat constructor; by eexists.
Qed.

(** C5 (amended).  [from_json] fails exactly when the text is not a
    JSON document, or the document is not an object, or one of the six
    required members is absent, or [inner_edges] or [outer_edges] is
    not a list of edge objects (an empty object or empty string passes
    for the empty list), or [cross_links] is present and is not a
    list, object or string of iterable items.  When it succeeds, every
    optional member that is absent takes its default: [cross_links]
    the empty list, [show_cross_links] and [lock_positions] true,
    [inner_radius] 200, [outer_radius] 380, [start_angle_deg] 90,
    [physics] false. *)
Theorem from_json_outcome `{Codec} (s : text) :
  (raises (from_json s) ↔ ¬ accepted s)
  ∧ ∀ c kvs, from_json s = Ok c → json_loads s = Ok (JObj kvs) →
      (member "cross_links" kvs = None → Dyn.cross_links c = [])
      ∧ (member "show_cross_links" kvs = None
         → Dyn.show_cross_links c = JBool true)
      ∧ (member "lock_positions" kvs = None
         → Dyn.lock_positions c = JBool true)
      ∧ (member "inner_radius" kvs = None → Dyn.inner_radius c = JInt 200)
      ∧ (member "outer_radius" kvs = None → Dyn.outer_radius c = JInt 380)
      ∧ (member "start_angle_deg" kvs = None
         → Dyn.start_angle_deg c = JInt 90)
      ∧ (member "physics" kvs = None → Dyn.physics c = JBool false).
Proof.
  split.
  - by rewrite raises_iff_not_Ok, from_json_is_Ok.
  - intros c kvs Hok Hs.
    destruct (from_json_needs_fields s) as (kvs' & Hs' & Hreq).
    { rewrite Hok. apply is_Ok_Ok. }
    assert (kvs' = kvs) as -> by congruence.
    destruct (required_members kvs Hreq)
      as (v1 & v2 & v3 & v4 & v5 & v6 & H1 & H2 & H3 & H4 & H5 & H6).
    rewrite (from_json_object s kvs v1 v2 v3 v4 v5 v6) in Hok by done.
    destruct (Dyn.edges_from v3); simpl in Hok; [| done].
    destruct (Dyn.edges_from v6); simpl in Hok; [| done].
    destruct (Dyn.tuples_from _) eqn:Hcl in Hok; simpl in Hok; [| done].
    injection Hok as <-. simpl.
    split_and!; intros Hnone; rewrite Hnone in *; try done.
    simpl in Hcl. by injection Hcl as <-.
Qed.

Example from_json_older_schema :
  from_json
    (Document (JObj
       [("inner_nodes", JArr [JStr "Knowledge"; JStr "Models"; JStr "Data"]);
        ("inner_labels", JObj []);
        ("inner_edges",
         JArr [JObj [("source", JStr "Models"); ("target", JStr "Knowledge")]]);
        ("outer_nodes", JArr []); ("outer_labels", JObj []);
        ("outer_edges", JArr [])]))
  = Ok (Dyn.mkConfig
          (JArr [JStr "Knowledge"; JStr "Models"; JStr "Data"]) (JObj [])
          [Dyn.mkEdge (JStr "Models") (JStr "Knowledge") (JStr "")]
          (JArr []) (JObj []) [] []
          (JBool true) (JBool true) (JInt 200) (JInt 380) (JInt 90)
          (JBool false)).
Proof. reflexivity. Qed.

Example from_json_malformed :
  from_json Malformed = Raise JSONDecodeError.
Proof. reflexivity. Qed.

(** * Further properties of the code *)

(** ** Nodes of the built graph *)

Lemma add_nodes_full (pos : gmap string (Z * Z))
    (mk : DiagramConfig → string → Z * Z → VisNode) (names : list string)
    (c : DiagramConfig) net :
  (∀ c n xy, n_id (mk c n xy) = n) →
  (∀ n, n ∈ names → is_Some (pos !! n)) →
  ∃ net',
    foldM (λ w n, xy ← dict_getitem pos n;
                  Ok (on_net (add_node (mk (w_cfg w) n xy)) w))
          (mkWorld c net) names = Ok (mkWorld c net')
    ∧ net_edges net' = net_edges net
    ∧ net_physics net' = net_physics net
    ∧ (NoDup (node_ids net) → NoDup (node_ids net'))
    ∧ (∀ x, x ∈ node_ids net' ↔ x ∈ node_ids net ∨ x ∈ names)
    ∧ (∀ nd, nd ∈ net_nodes net' ↔
             nd ∈ net_nodes net
             ∨ (∃ n xy, n ∈ names ∧ (n ∉ node_ids net)
                        ∧ pos !! n = Some xy
                        ∧ nd = stored_node (mk c n xy))).
Proof.
  intros Hid. revert net.
  induction names as [|n names IH]; intros net Hpos; simpl.
  - exists net. split_and!; try done.
    + intros x. split; [by left |].
      intros [? | Hx]; [done | by apply elem_of_nil in Hx].
    + intros nd. split; [by left |].
      intros [? | (m & xy & Hm & _)]; [done | by apply elem_of_nil in Hm].
  - destruct (Hpos n) as [xy Hxy]; [apply list_elem_of_here |].
    rewrite (dict_getitem_Some _ _ _ Hxy). simpl. rewrite on_net_mk. simpl.
    destruct (IH (add_node (mk c n xy) net))
      as (net' & -> & He & Hp & Hnd & Hn & Hnodes).
    { intros m Hm. apply Hpos. by apply list_elem_of_further. }
    exists net'. split; [done |].
    rewrite He, Hp, net_edges_add_node, net_physics_add_node.
    split_and!; try done.
    + intros Hnodup. apply Hnd. unfold add_node.
      case_bool_decide as Hin; [done |].
      unfold node_ids. simpl. rewrite fmap_app. simpl.
      apply NoDup_app. split; [done |]. split.
      * intros x Hx ->%list_elem_of_singleton. exact (Hin Hx).
      * apply NoDup_singleton.
    + intros x. rewrite Hn, node_ids_add_node, Hid, elem_of_cons. tauto.
    + intros nd. rewrite Hnodes. split.
      * intros [Hold | (m & xy' & Hm & Hfresh & Hxy' & ->)].
        -- unfold add_node in Hold. case_bool_decide as Hin; [by left |].
           simpl in Hold. apply elem_of_app in Hold as [? | Hnew]; [by left |].
           apply list_elem_of_singleton in Hnew as ->.
           right. exists n, xy. split_and!; try done.
           ++ apply list_elem_of_here.
           ++ by rewrite Hid in Hin.
        -- right. exists m, xy'. split_and!; try done.
           ++ by apply list_elem_of_further.
           ++ intros Hm'. apply Hfresh, node_ids_add_node. by left.
      * intros [Hold | (m & xy' & Hm & Hfresh & Hxy' & ->)].
        -- left. unfold add_node. case_bool_decide; [done |].
           simpl. apply elem_of_app. by left.
        -- destruct (decide (m = n)) as [-> | Hne].
           ++ left. assert (xy' = xy) as -> by congruence.
              unfold add_node. rewrite bool_decide_eq_false_2
                by (by rewrite Hid).
              simpl. apply elem_of_app. right. apply list_elem_of_here.
           ++ right. exists m, xy'. split_and!; try done.
              ** apply elem_of_cons in Hm as [? | ?]; done.
              ** intros [Hm' | Hm']%node_ids_add_node; [done |].
                 by rewrite Hid in Hm'.
Qed.

Lemma ring_edges_elem nodes pool step arrows e :
  e ∈ ring_edges nodes pool step arrows →
  ∃ i u v, nodes !! i = Some u
    ∧ nodes !! Z.to_nat ((Z.of_nat i + step) `mod` Z.of_nat (length nodes))
      = Some v
    ∧ e = ring_edge u v (edge_label u v pool) arrows.
Proof.
  intros (i & Hi)%list_elem_of_lookup.
  pose proof Hi as Hlt%lookup_lt_Some.
  unfold ring_edges in Hlt. rewrite length_imap in Hlt.
  destruct (lookup_lt_is_Some_2 nodes i Hlt) as [u Hu].
  destruct (ring_edges_lookup nodes pool step arrows i u Hu) as (v & Hv & He).
  exists i, u, v. split_and!; try done. congruence.
Qed.

Section BuilderMore.
Context `{Arith}.

(** Everything the builder leaves behind: the run, the edges in the
    order drawn, and the nodes. *)
Lemma build_network_full cfg :
  layout_ok cfg →
  ∃ net, build_network cfg = Ok (net, cfg)
    ∧ net_edges net
      = ring_edges (outer_nodes cfg) (outer_edges cfg) 1 ""
        ++ ring_edges (inner_nodes cfg) (inner_edges cfg) (-1) "to"
        ++ cross_edges cfg
    ∧ NoDup (node_ids net)
    ∧ (∀ x, x ∈ node_ids net ↔ x ∈ outer_nodes cfg ∨ x ∈ inner_nodes cfg)
    ∧ (∀ nd, nd ∈ net_nodes net ↔
         (∃ n xy, n ∈ outer_nodes cfg
            ∧ positions_at (outer_nodes cfg) (outer_radius cfg) true
                (start_angle_deg cfg) !! n = Some xy
            ∧ nd = stored_node (outer_node cfg n xy))
         ∨ (∃ n xy, n ∈ inner_nodes cfg ∧ (n ∉ outer_nodes cfg)
              ∧ positions_at (inner_nodes cfg) (inner_radius cfg) true
                  (start_angle_deg cfg) !! n = Some xy
              ∧ nd = stored_node (inner_node cfg n xy))).
Proof.
  intros [Hfi Hfo].
  unfold build_network. cbv zeta. rewrite !on_net_mk. simpl.
  rewrite (circle_positions_ok _ _ _ _ Hfi). simpl.
  rewrite (circle_positions_ok _ _ _ _ Hfo). simpl.
  set (net0 := toggle_physics _ _).
  destruct (add_nodes_full
              (positions_at (outer_nodes cfg) (outer_radius cfg) true
                 (start_angle_deg cfg))
              outer_node (outer_nodes cfg) cfg net0)
    as (net1 & -> & He1 & _ & Hd1 & Hn1 & Hnodes1);
    [done | apply positions_cover |].
  simpl.
  destruct (add_nodes_full
              (positions_at (inner_nodes cfg) (inner_radius cfg) true
                 (start_angle_deg cfg))
              inner_node (inner_nodes cfg) cfg net1)
    as (net2 & -> & He2 & _ & Hd2 & Hn2 & Hnodes2);
    [done | apply positions_cover |].
  simpl.
  assert (Hids0 : ∀ x, x ∈ node_ids net1 ↔ x ∈ outer_nodes cfg).
  { intros x. rewrite Hn1. unfold net0, node_ids. simpl.
    rewrite elem_of_nil. tauto. }
  assert (Hids : ∀ x, x ∈ node_ids net2
                      ↔ x ∈ outer_nodes cfg ∨ x ∈ inner_nodes cfg).
  { intros x. by rewrite Hn2, Hids0. }
  rewrite (ring_loop outer_nodes outer_edges 1 "" cfg net2)
    by (intros x Hx; apply Hids; by left).
  simpl.
  rewrite (ring_loop inner_nodes inner_edges (-1) "to" cfg)
    by (intros x Hx; apply Hids; by right).
  simpl.
  assert (He : net_edges net2 = []).
  { by rewrite He2, He1. }
  assert (Hnd : NoDup (node_ids net2)).
  { apply Hd2, Hd1. unfold net0, node_ids. simpl. constructor. }
  assert (Hnodes : ∀ nd, nd ∈ net_nodes net2 ↔
            (∃ n xy, n ∈ outer_nodes cfg
               ∧ positions_at (outer_nodes cfg) (outer_radius cfg) true
                   (start_angle_deg cfg) !! n = Some xy
               ∧ nd = stored_node (outer_node cfg n xy))
            ∨ (∃ n xy, n ∈ inner_nodes cfg ∧ (n ∉ outer_nodes cfg)
                 ∧ positions_at (inner_nodes cfg) (inner_radius cfg) true
                     (start_angle_deg cfg) !! n = Some xy
                 ∧ nd = stored_node (inner_node cfg n xy))).
  { intros nd. rewrite Hnodes2, Hnodes1. unfold net0 at 1. simpl.
    rewrite elem_of_nil. split.
    - intros [[[] | (n & xy & Hn & _ & Hxy & ->)]
             | (n & xy & Hn & Hfresh & Hxy & ->)].
      + left. by exists n, xy.
      + right. exists n, xy. split_and!; try done. by rewrite <- Hids0.
    - intros [(n & xy & Hn & Hxy & ->) | (n & xy & Hn & Hfresh & Hxy & ->)].
      + left. right. exists n, xy. split_and!; try done.
        unfold net0, node_ids. simpl. apply not_elem_of_nil.
      + right. exists n, xy. split_and!; try done. by rewrite Hids0. }
  unfold cross_edges. destruct (show_cross_links cfg).
  - rewrite cross_loop by (intros x Hx; by apply Hids).
    simpl. eexists. split; [done |]. simpl. rewrite He. simpl.
    rewrite <- app_assoc. done.
  - simpl. eexists. split; [done |]. simpl. rewrite He. simpl.
    by rewrite app_nil_r.
Qed.

End BuilderMore.

Lemma edge_matches_comm u v e : edge_matches u v e ↔ edge_matches v u e.
Proof. unfold edge_matches. tauto. Qed.

Lemma edge_label_comm u v pool : edge_label u v pool = edge_label v u pool.
Proof.
  induction pool as [|e pool IH]; [done |]. simpl.
  rewrite IH. by rewrite (bool_decide_ext _ _ (edge_matches_comm u v e)).
Qed.

(** X1.  [build_network] raises [OverflowError] exactly on the
    configurations whose layout does not go through (a ring with a node
    to place and a radius or start angle beyond the floats).  On every
    other configuration (empty lists, repeated names, names shared by
    the two tiers, stale edges or links) it returns a graph whose node
    ids are pairwise distinct, are exactly the names of the two node
    lists, and whose every edge has both endpoints among them. *)
Theorem built_graph_integrity `{Arith} (cfg : DiagramConfig) :
  (¬ layout_ok cfg → build_network cfg = Raise OverflowError)
  ∧ (layout_ok cfg →
     ∃ net, build_network cfg = Ok (net, cfg)
       ∧ NoDup (node_ids net)
       ∧ (∀ x, x ∈ node_ids net ↔ x ∈ outer_nodes cfg ∨ x ∈ inner_nodes cfg)
       ∧ ∀ e, e ∈ net_edges net →
              e_from e ∈ node_ids net ∧ e_to e ∈ node_ids net).
Proof.
  split; [apply build_network_overflow |]. intros Hfit.
  destruct (build_network_full cfg Hfit)
    as (net & Hrun & Hedges & Hnd & Hids & _).
  exists net. split_and!; try done.
  intros e. rewrite Hedges, !elem_of_app, !Hids.
  intros [He | [He | He]].
  - apply ring_edges_elem in He as (i & u & v & Hu & Hv & ->). simpl.
    split; left; apply list_elem_of_lookup; eauto.
  - apply ring_edges_elem in He as (i & u & v & Hu & Hv & ->). simpl.
    split; right; apply list_elem_of_lookup; eauto.
  - unfold cross_edges in He. destruct (show_cross_links cfg).
    + apply list_elem_of_fmap in He as (p & -> & Hp).
      apply list_elem_of_filter in Hp as [[Ho Hi] _]. simpl. auto.
    + by apply elem_of_nil in He.
Qed.

Lemma built_graph_integrity_witness :
  let huge := set_radii (2 ^ 1024) 380 default_config in
  layout_ok default_config ∧ ¬ layout_ok huge
  ∧ build_network (H := real_arith) huge = Raise OverflowError
  ∧ ∃ net, build_network (H := real_arith) default_config
           = Ok (net, default_config)
      ∧ NoDup (node_ids net).
Proof.
  intros huge.
  assert (Hfit : layout_ok default_config).
  { apply (bool_decide_unpack _). vm_compute. exact I. }
  assert (Hno : ¬ layout_ok huge).
  { apply (bool_decide_unpack _). vm_compute. exact I. }
  split; [exact Hfit |]. split; [exact Hno |]. split.
  - exact (proj1 (built_graph_integrity (H := real_arith) huge) Hno).
  - destruct (proj2 (built_graph_integrity (H := real_arith) default_config)
                Hfit) as (net & Hrun & Hnd & _).
    exists net. split; [exact Hrun | exact Hnd].
Defined.

(** X2.  On a configuration whose layout goes through, the nodes of the
    built graph are one outer-style node (border 1, opacity 0.35,
    position from the outer circle) for each name of [outer_nodes], and
    one inner-style node (border 2, full opacity, position from the
    inner circle) for each name of [inner_nodes] that is not also an
    outer name: a name in both tiers is drawn once, as an outer node.
    The label drawn is the entry of the tier's label mapping, or the
    name when there is no entry or the entry is the empty string. *)
Theorem built_nodes_by_tier `{Arith} (cfg : DiagramConfig) :
  layout_ok cfg →
  ∃ net outer_pos inner_pos,
    build_network cfg = Ok (net, cfg)
    ∧ circle_positions (outer_nodes cfg) (outer_radius cfg) true
        (start_angle_deg cfg) = Ok outer_pos
    ∧ circle_positions (inner_nodes cfg) (inner_radius cfg) true
        (start_angle_deg cfg) = Ok inner_pos
    ∧ ∀ nd, nd ∈ net_nodes net ↔
      (∃ n xy, n ∈ outer_nodes cfg
         ∧ outer_pos !! n = Some xy
         ∧ nd = {| n_id := n;
                   n_label :=
                     (let l := default n (outer_labels cfg !! n) in
                      if PyStr.truthy l then l else n);
                   n_x := xy.1; n_y := xy.2;
                   n_physics := negb (lock_positions cfg);
                   n_shape := "box"; n_borderWidth := 1;
                   n_opacity := Some (35 # 100)%Q;
                   n_font_face := "Times New Roman"; n_font_bold := true |})
      ∨ (∃ n xy, n ∈ inner_nodes cfg ∧ (n ∉ outer_nodes cfg)
           ∧ inner_pos !! n = Some xy
           ∧ nd = {| n_id := n;
                     n_label :=
                       (let l := default n (inner_labels cfg !! n) in
                        if PyStr.truthy l then l else n);
                     n_x := xy.1; n_y := xy.2;
                     n_physics := negb (lock_positions cfg);
                     n_shape := "box"; n_borderWidth := 2;
                     n_opacity := None;
                     n_font_face := "Times New Roman"; n_font_bold := true |}).
Proof.
  intros Hfit.
  destruct (build_network_full cfg Hfit) as (net & Hrun & _ & _ & _ & Hnodes).
  destruct Hfit as [Hfi Hfo].
  exists net. eexists. eexists. split; [done |].
  split; [by apply circle_positions_ok |].
  split; [by apply circle_positions_ok |].
  exact Hnodes.
Qed.

Lemma built_nodes_by_tier_witness :
  let cfg := set_inner ["Data"; "Models"] {["Data" := ""]} default_config in
  layout_ok cfg
  ∧ ∃ net, build_network (H := real_arith) cfg = Ok (net, cfg)
      ∧ ∃ nd, nd ∈ net_nodes net ∧ n_id nd = "Data" ∧ n_label nd = "Data".
Proof.
  intros cfg.
  assert (Hfit : layout_ok cfg).
  { apply (bool_decide_unpack _). vm_compute. exact I. }
  split; [exact Hfit |].
  destruct (built_nodes_by_tier (H := real_arith) cfg Hfit)
    as (net & opos & ipos & Hrun & Ho & Hi & Hnodes).
  exists net. split; [exact Hrun |].
  assert (Hdata : is_Some (ipos !! "Data")).
  { apply circle_positions_inv in Hi as [_ ->].
    apply positions_cover. apply list_elem_of_here. }
  destruct Hdata as [xy Hxy].
  eexists. split.
  - apply Hnodes. right. exists "Data", xy.
    split; [apply list_elem_of_here |].
    split; [apply (bool_decide_unpack _); vm_compute; exact I |].
    split; [exact Hxy | reflexivity].
  - split; reflexivity.
Defined.

(** X3.  On a configuration whose layout goes through, the edges of the
    built graph come in a fixed order: the outer ring, then the inner
    ring, then the cross-links; there are
    [len(outer_nodes) + len(inner_nodes)] ring edges and at most
    [len(cross_links)] cross-link edges. *)
Theorem built_edges_in_order `{Arith} (cfg : DiagramConfig) :
  layout_ok cfg →
  ∃ net, build_network cfg = Ok (net, cfg)
    ∧ net_edges net
      = filter no_arrow (net_edges net)
        ++ filter solid_arrow (net_edges net)
        ++ filter dashed (net_edges net)
    ∧ length (filter no_arrow (net_edges net)) = length (outer_nodes cfg)
    ∧ length (filter solid_arrow (net_edges net)) = length (inner_nodes cfg)
    ∧ length (filter dashed (net_edges net)) ≤ length (cross_links cfg).
Proof.
  intros Hfit.
  destruct (build_network_full cfg Hfit) as (net & Hrun & Hedges & _).
  exists net. split; [done |].
  destruct (built_families
              (ring_edges (outer_nodes cfg) (outer_edges cfg) 1 "")
              (ring_edges (inner_nodes cfg) (inner_edges cfg) (-1) "to")
              (cross_edges cfg)) as (Hout & Hin & Hcross).
  { by apply ring_edges_Forall. }
  { by apply ring_edges_Forall. }
  { by apply cross_edges_Forall. }
  cbv zeta in Hout, Hin, Hcross. rewrite <- Hedges in Hout, Hin, Hcross.
  rewrite Hout, Hin, Hcross. split; [done |].
  unfold ring_edges. rewrite !length_imap. split; [done |]. split; [done |].
  unfold cross_edges. destruct (show_cross_links cfg); simpl; [| lia].
  rewrite length_fmap. apply length_filter.
Qed.

Lemma built_edges_in_order_witness :
  layout_ok default_config
  ∧ ∃ net, build_network (H := real_arith) default_config
           = Ok (net, default_config)
      ∧ length (filter no_arrow (net_edges net)) = 5
      ∧ length (filter solid_arrow (net_edges net)) = 5
      ∧ length (filter dashed (net_edges net)) ≤ 25.
Proof.
  assert (Hfit : layout_ok default_config).
  { apply (bool_decide_unpack _). vm_compute. exact I. }
  split; [exact Hfit |].
  destruct (built_edges_in_order (H := real_arith) default_config Hfit)
    as (net & Hrun & _ & Hout & Hin & Hcross).
  exists net. split; [exact Hrun |]. split; [exact Hout |].
  split; [exact Hin | exact Hcross].
Defined.

(** X4.  The label lookup does not see the direction of a stored edge:
    the pair [(u, v)] and the pair [(v, u)] get the same label, so an
    edge stored as [v -> u] at the head of the pool labels the drawn
    edge [u -> v]. *)
Theorem edge_label_symmetric (u v : string) (pool : list Edge) :
  edge_label u v pool = edge_label v u pool
  ∧ ∀ lbl, edge_label u v (mkEdge v u lbl :: pool) = lbl.
Proof.
  split; [apply edge_label_comm |].
  intros lbl. simpl. rewrite bool_decide_eq_true_2; [done |].
  right. done.
Qed.

(** X5.  With both node lists empty the builder returns the empty
    graph, whatever edges and links are stored: no division or modulo
    by the zero length is ever evaluated. *)
Theorem empty_lists_empty_graph `{Arith} (cfg : DiagramConfig) :
  outer_nodes cfg = [] → inner_nodes cfg = [] →
  ∃ net, build_network cfg = Ok (net, cfg)
    ∧ net_nodes net = [] ∧ net_edges net = [].
Proof.
  intros Ho Hi.
  assert (Hfit : layout_ok cfg).
  { split; left; done. }
  destruct (build_network_full cfg Hfit)
    as (net & Hrun & Hedges & _ & Hids & _).
  exists net. split; [done |]. split.
  - destruct (net_nodes net) as [|nd nds] eqn:Hn; [done |].
    assert (Hin : n_id nd ∈ node_ids net).
    { unfold node_ids. rewrite Hn. simpl. apply list_elem_of_here. }
    apply Hids in Hin. rewrite Ho, Hi in Hin.
    destruct Hin as [Hin | Hin]; by apply elem_of_nil in Hin.
  - rewrite Hedges, Ho, Hi. simpl. unfold cross_edges.
    destruct (show_cross_links cfg); [| done].
    rewrite (filter_drop_all (link_drawn cfg)); [done |].
    apply Forall_forall. intros p _ [Hp _]. rewrite Ho in Hp.
    by apply elem_of_nil in Hp.
Qed.

Lemma empty_lists_empty_graph_witness :
  let cfg := set_outer [] ∅ (set_inner [] ∅ default_config) in
  outer_nodes cfg = [] ∧ inner_nodes cfg = []
  ∧ ∃ net, build_network (H := real_arith) cfg = Ok (net, cfg)
      ∧ net_edges net = [].
Proof.
  intros cfg. split; [reflexivity |]. split; [reflexivity |].
  destruct (empty_lists_empty_graph (H := real_arith) cfg eq_refl eq_refl)
    as (net & Hrun & _ & Hedges).
  exists net. split; [exact Hrun | exact Hedges].
Defined.

(** X6.  On a configuration whose layout goes through, a ring of one
    node is drawn as a self-loop: the modulo wraps the single index
    onto itself. *)
Theorem single_node_self_loop `{Arith} (cfg : DiagramConfig) (u : string) :
  layout_ok cfg →
  outer_nodes cfg = [u] →
  ∃ net, build_network cfg = Ok (net, cfg)
    ∧ filter no_arrow (net_edges net)
      = [{| e_from := u; e_to := u;
            e_label := Some (edge_label u u (outer_edges cfg));
            e_arrows := ""; e_dashes := None; e_color := None;
            e_smooth := true |}].
Proof.
  intros Hfit Ho.
  destruct (build_network_families cfg Hfit) as (net & Hrun & Hout & _).
  exists net. split; [done |]. rewrite Hout, Ho. reflexivity.
Qed.

Lemma single_node_self_loop_witness :
  let cfg := set_outer ["Concepts"] ∅ default_config in
  layout_ok cfg ∧ outer_nodes cfg = ["Concepts"]
  ∧ ∃ net, build_network (H := real_arith) cfg = Ok (net, cfg)
      ∧ filter no_arrow (net_edges net)
        = [ring_edge "Concepts" "Concepts" "" ""].
Proof.
  intros cfg.
  assert (Hfit : layout_ok cfg).
  { apply (bool_decide_unpack _). vm_compute. exact I. }
  split; [exact Hfit |]. split; [reflexivity |].
  destruct (single_node_self_loop (H := real_arith) cfg "Concepts" Hfit
              eq_refl) as (net & Hrun & Hout).
  exists net. split; [exact Hrun |]. rewrite Hout. vm_compute. reflexivity.
Defined.

(** X7.  On a configuration whose layout goes through, a ring of two
    nodes is drawn as two opposite edges carrying the same label, that
    of the first stored edge joining the two nodes in either
    direction. *)
Theorem two_node_ring_one_label `{Arith} (cfg : DiagramConfig) (u v : string) :
  layout_ok cfg →
  inner_nodes cfg = [u; v] →
  ∃ net, build_network cfg = Ok (net, cfg)
    ∧ filter solid_arrow (net_edges net)
      = [ring_edge u v (edge_label u v (inner_edges cfg)) "to";
         ring_edge v u (edge_label u v (inner_edges cfg)) "to"].
Proof.
  intros Hfit Hi.
  destruct (build_network_families cfg Hfit) as (net & Hrun & _ & Hin & _).
  exists net. split; [done |]. rewrite Hin, Hi.
  unfold ring_edges, ring_edge_at. simpl.
  by rewrite (edge_label_comm v u).
Qed.

Lemma two_node_ring_one_label_witness :
  let cfg := set_inner ["Data"; "Models"] ∅ default_config in
  layout_ok cfg ∧ inner_nodes cfg = ["Data"; "Models"]
  ∧ ∃ net, build_network (H := real_arith) cfg = Ok (net, cfg)
      ∧ filter solid_arrow (net_edges net)
        = [ring_edge "Data" "Models" "Ordered as" "to";
           ring_edge "Models" "Data" "Ordered as" "to"].
Proof.
  intros cfg.
  assert (Hfit : layout_ok cfg).
  { apply (bool_decide_unpack _). vm_compute. exact I. }
  split; [exact Hfit |]. split; [reflexivity |].
  destruct (two_node_ring_one_label (H := real_arith) cfg "Data" "Models"
              Hfit eq_refl) as (net & Hrun & Hin).
  exists net. split; [exact Hrun |]. rewrite Hin. vm_compute. reflexivity.
Defined.

(** ** Layout: every position is a point of the loop *)

Section LayoutMore.
Context `{Arith}.
Variables (radius : Z) (cw : bool) (start : Z) (n : nat).
Implicit Types (names : list string) (pos : gmap string (Z * Z)).

Let step pos (ix : nat * string) : gmap string (Z * Z) :=
  let '(i, name) := ix in <[name := point_at radius cw start i n]> pos.

Lemma fold_step_values names k pos nm p :
  foldl step pos (enumerate_from k names) !! nm = Some p →
  pos !! nm = Some p ∨ ∃ i, p = point_at radius cw start i n.
Proof.
  revert k pos. induction names as [|x names IH]; intros k pos Hp; simpl in Hp.
  - by left.
  - apply IH in Hp as [Hp | Hp]; [| by right].
    destruct (decide (x = nm)) as [-> | Hne].
    + rewrite lookup_insert_eq in Hp. injection Hp as <-. right. by exists k.
    + rewrite lookup_insert_ne in Hp by done. by left.
Qed.

End LayoutMore.

Lemma positions_at_values `{Arith} names radius cw start nm p :
  positions_at names radius cw start !! nm = Some p →
  ∃ i, p = point_at radius cw start i (length names).
Proof.
  unfold positions_at, enumerate. intros Hp.
  apply (fold_step_values radius cw start (length names) names 0 ∅) in Hp
    as [Hp | Hp]; [| done].
  by rewrite lookup_empty in Hp.
Qed.

Lemma Rtrunc_magnitude (r : R) (z : Z) :
  (Rabs r <= Rabs (IZR z))%R → (Z.abs (Rtrunc r) ≤ Z.abs z)%Z.
Proof.
  intros Hr. rewrite <- abs_IZR in Hr. unfold Rtrunc.
  destruct (Rle_dec 0 r) as [Hpos | Hneg].
  - destruct (base_Int_part r) as [Hle Hgt].
    rewrite Rabs_right in Hr by lra.
    assert (H0 : (-1 < Int_part r)%Z) by (apply lt_IZR; lra).
    assert (H1 : (Int_part r ≤ Z.abs z)%Z) by (apply le_IZR; lra).
    lia.
  - destruct (base_Int_part (- r)) as [Hle Hgt].
    rewrite Rabs_left in Hr by lra.
    assert (H0 : (-1 < Int_part (- r))%Z) by (apply lt_IZR; lra).
    assert (H1 : (Int_part (- r) ≤ Z.abs z)%Z) by (apply le_IZR; lra).
    lia.
Qed.

(** X8.  When the float product [radius * cos(a)] (and [radius * sin(a)])
    never exceeds [radius] in magnitude, every node position lies in
    the square [|x| <= |radius|], [|y| <= |radius|]: truncation toward
    zero never pushes a coordinate outwards. *)
Theorem positions_within_radius `{Arith} (names : list string) (radius : Z)
    (clockwise : bool) (start_angle_deg : Z) :
  (∀ a, (Rabs (to_real (fmul (of_int radius) (fcos a)))
         <= Rabs (IZR radius))%R) →
  (∀ a, (Rabs (to_real (fmul (of_int radius) (fsin a)))
         <= Rabs (IZR radius))%R) →
  ∀ pos name x y,
    circle_positions names radius clockwise start_angle_deg = Ok pos →
    pos !! name = Some (x, y) →
    (Z.abs x ≤ Z.abs radius)%Z ∧ (Z.abs y ≤ Z.abs radius)%Z.
Proof.
  intros Hcos Hsin pos name x y Hpos Hp.
  apply circle_positions_inv in Hpos as [_ ->].
  apply positions_at_values in Hp as [i Hp].
  unfold point_at, to_int in Hp. injection Hp as -> ->.
  split; apply Rtrunc_magnitude; [apply Hcos | apply Hsin].
Qed.

Lemma positions_within_radius_witness :
  (∀ a, (Rabs (to_real (fmul (of_int 200) (fcos (Arith := real_arith) a)))
         <= Rabs (IZR 200))%R)
  ∧ ∀ pos name x y,
      circle_positions (H := real_arith) ["Knowledge"; "Models"; "Data"]
        200 true 90 = Ok pos →
      pos !! name = Some (x, y) →
      (Z.abs x ≤ Z.abs 200)%Z ∧ (Z.abs y ≤ Z.abs 200)%Z.
Proof.
  assert (Hcos : ∀ a, (Rabs (to_real (fmul (of_int 200)
                                        (fcos (Arith := real_arith) a)))
                       <= Rabs (IZR 200))%R).
  { intros a. simpl. rewrite Rabs_mult.
    pose proof (COS_bound a) as [Hlo Hhi].
    assert (Hc : (Rabs (cos a) <= 1)%R) by (apply Rabs_le; lra).
    pose proof (Rabs_pos 200). nra. }
  assert (Hsin : ∀ a, (Rabs (to_real (fmul (of_int 200)
                                        (fsin (Arith := real_arith) a)))
                       <= Rabs (IZR 200))%R).
  { intros a. simpl. rewrite Rabs_mult.
    pose proof (SIN_bound a) as [Hlo Hhi].
    assert (Hc : (Rabs (sin a) <= 1)%R) by (apply Rabs_le; lra).
    pose proof (Rabs_pos 200). nra. }
  split; [exact Hcos |].
  exact (positions_within_radius (H := real_arith)
           ["Knowledge"; "Models"; "Data"] 200 true 90 Hcos Hsin).
Defined.

(** ** Node-order updates *)

Lemma keep_labels_fold (labels acc : gmap string string) names n :
  foldl (λ (d : gmap string string) m, <[m := label_or_id labels m]> d)
        acc names !! n
  = if decide (n ∈ names) then Some (label_or_id labels n) else acc !! n.
Proof.
  revert acc. induction names as [|x names IH]; intros acc; cbn [foldl].
  - rewrite decide_False; [done | apply not_elem_of_nil].
  - rewrite IH. destruct (decide (n ∈ names)) as [Hin | Hnin].
    + rewrite decide_True; [done | by apply list_elem_of_further].
    + destruct (decide (n = x)) as [-> | Hne].
      * rewrite decide_True by apply list_elem_of_here.
        apply lookup_insert_eq.
      * rewrite decide_False by (by intros [? | ?]%elem_of_cons).
        by apply lookup_insert_ne.
Qed.

Lemma keep_labels_lookup (labels : gmap string string) names n :
  keep_labels labels names !! n
  = if decide (n ∈ names) then Some (label_or_id labels n) else None.
Proof.
  unfold keep_labels. rewrite keep_labels_fold.
  by destruct (decide (n ∈ names)).
Qed.

Lemma keep_labels_twice (labels : gmap string string) names :
  keep_labels (keep_labels labels names) names = keep_labels labels names.
Proof.
  apply map_eq. intros n. rewrite !keep_labels_lookup.
  destruct (decide (n ∈ names)) as [Hin | Hnin]; [| done].
  unfold label_or_id at 1. rewrite keep_labels_lookup.
  by rewrite decide_True.
Qed.

(** X9.  An accepted node-order update (3 names or more) replaces
    [inner_nodes] by the parsed names and [inner_labels] by a mapping
    whose keys are exactly those names, each keeping its previous label
    or else labelled by its own name; the stored edges, the cross-links
    and every other field are left as they were, so edges and links of
    removed nodes stay in the configuration. *)
Theorem node_update_applied (cfg : DiagramConfig) (input : string) :
  3 ≤ length (parse_names input) →
  let names := parse_names input in
  let cfg' := (on_update_inner input cfg).1 in
  (on_update_inner input cfg).2 = Success "Inner order updated."
  ∧ inner_nodes cfg' = names
  ∧ (∀ n, inner_labels cfg' !! n
          = if decide (n ∈ names)
            then Some (default n (inner_labels cfg !! n)) else None)
  ∧ inner_edges cfg' = inner_edges cfg
  ∧ cross_links cfg' = cross_links cfg
  ∧ outer_nodes cfg' = outer_nodes cfg
  ∧ outer_labels cfg' = outer_labels cfg
  ∧ outer_edges cfg' = outer_edges cfg
  ∧ (show_cross_links cfg', lock_positions cfg', physics cfg')
    = (show_cross_links cfg, lock_positions cfg, physics cfg)
  ∧ (inner_radius cfg', outer_radius cfg', start_angle_deg cfg')
    = (inner_radius cfg, outer_radius cfg, start_angle_deg cfg).
Proof.
  intros Hlen names cfg'. subst names cfg'. unfold on_update_inner.
  cbv zeta. rewrite bool_decide_eq_true_2 by done. simpl.
  split_and!; try done.
  intros n. apply keep_labels_lookup.
Qed.

Lemma node_update_applied_witness :
  3 ≤ length (parse_names "Data , Models,Knowledge")
  ∧ inner_nodes (on_update_inner "Data , Models,Knowledge" default_config).1
    = ["Data"; "Models"; "Knowledge"].
Proof.
  assert (Hlen : 3 ≤ length (parse_names "Data , Models,Knowledge")).
  { vm_compute. lia. }
  split; [exact Hlen |].
  destruct (node_update_applied default_config "Data , Models,Knowledge" Hlen)
    as (_ & Hnodes & _).
  rewrite Hnodes. vm_compute. reflexivity.
Defined.

(** X10.  Pressing an update button twice with the same text is the
    same as pressing it once, for the inner and for the outer list. *)
Theorem node_update_idempotent (cfg : DiagramConfig) (input : string) :
  on_update_inner input (on_update_inner input cfg).1
  = on_update_inner input cfg
  ∧ on_update_outer input (on_update_outer input cfg).1
    = on_update_outer input cfg.
Proof.
  unfold on_update_inner, on_update_outer. cbv zeta.
  destruct (bool_decide (3 ≤ length (parse_names input))) eqn:Hlen; simpl.
  - rewrite !keep_labels_twice. done.
  - done.
Qed.

(** X11.  Removing a node forgets its label: once an accepted update
    has dropped a name, a later accepted update that brings the name
    back labels it by the name itself, whatever its label was. *)
Theorem removed_node_label_forgotten (cfg : DiagramConfig)
    (first second n : string) :
  3 ≤ length (parse_names first) →
  3 ≤ length (parse_names second) →
  n ∉ parse_names first →
  n ∈ parse_names second →
  inner_labels
    (on_update_inner second (on_update_inner first cfg).1).1 !! n
  = Some n.
Proof.
  intros H1 H2 Hout Hin. unfold on_update_inner. cbv zeta.
  rewrite !bool_decide_eq_true_2 by done. simpl.
  rewrite keep_labels_lookup, decide_True by done.
  unfold label_or_id. rewrite keep_labels_lookup, decide_False by done.
  done.
Qed.

Lemma removed_node_label_forgotten_witness :
  inner_labels default_config !! "Models"
  = Some ("Models" +:+ nl +:+ "(representing the world)")
  ∧ inner_labels
      (on_update_inner "Knowledge, Models, Data"
         (on_update_inner "Knowledge, Data, Objects" default_config).1).1
    !! "Models"
    = Some "Models".
Proof.
  split; [vm_compute; reflexivity |].
  apply (removed_node_label_forgotten default_config
           "Knowledge, Data, Objects" "Knowledge, Models, Data" "Models").
  - vm_compute. lia.
  - vm_compute. lia.
  - apply (bool_decide_unpack _). vm_compute. exact I.
  - apply (bool_decide_unpack _). vm_compute. exact I.
Defined.

(** ** Cross-links reset *)

Lemma cartesian_elem (outer inner : list string) o i :
  (o, i) ∈ cartesian outer inner ↔ o ∈ outer ∧ i ∈ inner.
Proof.
  unfold cartesian. rewrite list_elem_of_bind. split.
  - intros (o' & Hoi & Ho). apply list_elem_of_bind in Hoi as (i' & Hoi & Hi).
    apply list_elem_of_singleton in Hoi as [= -> ->]. done.
  - intros [Ho Hi]. exists o. split; [| done].
    apply list_elem_of_bind. exists i. split; [| done].
    by apply list_elem_of_singleton.
Qed.

Lemma cartesian_length (outer inner : list string) :
  length (cartesian outer inner) = length outer * length inner.
Proof.
  unfold cartesian. induction outer as [|o outer IH]; [done |].
  rewrite bind_cons, length_app, IH.
  assert (Hrow : length (inner ≫= λ i, [(o, i)]) = length inner).
  { clear IH. induction inner as [|i inner IHi]; [done |].
    rewrite bind_cons, length_app, IHi. done. }
  rewrite Hrow. simpl. done.
Qed.

(** X12.  A blank cross-link input discards the stored pairs and stores
    every pair of an outer and an inner name; with [show_cross_links]
    on and a layout that goes through, the graph built next has exactly
    [len(outer_nodes) * len(inner_nodes)] cross-link edges. *)
Theorem blank_links_full_product `{Arith} (cfg : DiagramConfig)
    (pairs_in : string) :
  PyStr.strip pairs_in = "" →
  show_cross_links cfg = true →
  layout_ok cfg →
  let cfg' := (on_set_cross_links pairs_in cfg).1 in
  (∀ o i, (o, i) ∈ cross_links cfg'
          ↔ o ∈ outer_nodes cfg ∧ i ∈ inner_nodes cfg)
  ∧ ∃ net, build_network cfg' = Ok (net, cfg')
      ∧ length (filter dashed (net_edges net))
        = length (outer_nodes cfg) * length (inner_nodes cfg).
Proof.
  intros Hblank Hshow Hfit cfg'. subst cfg'.
  unfold on_set_cross_links, parse_pairs. rewrite Hblank. simpl.
  split; [intros o i; apply cartesian_elem |].
  set (cfg' := set_cross_links _ cfg).
  destruct (build_network_families cfg' Hfit)
    as (net & Hrun & _ & _ & Hcross).
  exists net. split; [done |]. rewrite Hcross. unfold cross_edges.
  simpl. rewrite Hshow, length_fmap.
  rewrite (filter_keep_all (link_drawn cfg')).
  - apply cartesian_length.
  - apply Forall_forall. intros [o i] Hp. by apply cartesian_elem in Hp.
Qed.

Lemma blank_links_full_product_witness :
  let cfg := set_cross_links [("Metadata", "Data")] default_config in
  PyStr.strip "   " = "" ∧ show_cross_links cfg = true ∧ layout_ok cfg
  ∧ ∃ net, build_network (H := real_arith)
             (on_set_cross_links "   " cfg).1
           = Ok (net, (on_set_cross_links "   " cfg).1)
      ∧ length (filter dashed (net_edges net)) = 25.
Proof.
  intros cfg.
  assert (Hblank : PyStr.strip "   " = "") by reflexivity.
  assert (Hshow : show_cross_links cfg = true) by reflexivity.
  assert (Hfit : layout_ok cfg).
  { apply (bool_decide_unpack _). vm_compute. exact I. }
  split; [exact Hblank |]. split; [exact Hshow |]. split; [exact Hfit |].
  destruct (blank_links_full_product (H := real_arith) cfg "   " Hblank Hshow
              Hfit)
    as (_ & net & Hrun & Hlen).
  exists net. split; [exact Hrun | exact Hlen].
Defined.

(** ** Text fields *)

Lemma text_input_fresh ask t v (seen : fields) :
  t ∉ seen.*1 → text_input ask t v seen = Ok (ask t v, seen ++ [(t, v)]).
Proof.
  intros Ht. unfold text_input. rewrite bool_decide_eq_false_2; [done |].
  intros Hin. apply Ht. apply list_elem_of_fmap. by exists (t, v).
Qed.

(** A second field with the label and the value of an earlier one stops
    the run. *)
Lemma text_input_repeated ask t v (seen : fields) :
  (t, v) ∈ seen → text_input ask t v seen = Raise DuplicateWidgetID.
Proof. intros Hin. unfold text_input. by rewrite bool_decide_eq_true_2. Qed.

Lemma fresh_cons_inv t ts (seen : fields) v :
  fresh (t :: ts) seen → (t ∉ seen.*1) ∧ fresh ts (seen ++ [(t, v)]).
Proof.
  intros [Hnd Hun]. apply NoDup_cons in Hnd as [Ht Hnd].
  apply Forall_cons in Hun as [Hun1 Hun].
  split; [done |]. split; [done |].
  apply Forall_forall. intros t' Ht'. rewrite fmap_app. simpl.
  rewrite elem_of_app, list_elem_of_singleton.
  intros [Hin | ->]; [| done].
  by eapply Forall_forall in Hun.
Qed.

Lemma fresh_app_inv ts1 ts2 (seen : fields) :
  fresh (ts1 ++ ts2) seen → fresh ts1 seen ∧ fresh ts2 seen.
Proof.
  intros [Hnd Hun]. apply NoDup_app in Hnd as (Hnd1 & _ & Hnd2).
  apply Forall_app in Hun as [Hun1 Hun2]. by repeat split.
Qed.

Lemma append_cons c (a s : string) : String c a +:+ s = String c (a +:+ s).
Proof. done. Qed.

Lemma length_append (a b : string) :
  String.length (a +:+ b) = String.length a + String.length b.
Proof.
  induction a as [|c a IH]; [done |].
  rewrite append_cons. simpl. by rewrite IH.
Qed.

Lemma append_inj_l (p a b : string) : p +:+ a = p +:+ b → a = b.
Proof.
  induction p as [|c p IH]; [done |].
  rewrite !append_cons. intros [= Heq]. by apply IH.
Qed.

Lemma append_inj_r (a b s : string) : a +:+ s = b +:+ s → a = b.
Proof.
  revert b. induction a as [|c a IH]; intros [|d b] Heq.
  - done.
  - apply (f_equal String.length) in Heq.
    rewrite !length_append in Heq. simpl in Heq. lia.
  - apply (f_equal String.length) in Heq.
    rewrite !length_append in Heq. simpl in Heq. lia.
  - rewrite !append_cons in Heq. injection Heq as -> Heq.
    by rewrite (IH b Heq).
Qed.

#[local] Instance inner_label_title_inj : Inj (=) (=) inner_label_title.
Proof.
  intros a b Heq. unfold inner_label_title in Heq.
  apply append_inj_l in Heq. by apply append_inj_r in Heq.
Qed.

#[local] Instance outer_label_title_inj : Inj (=) (=) outer_label_title.
Proof.
  intros a b Heq. unfold outer_label_title in Heq.
  apply append_inj_l in Heq. by apply append_inj_r in Heq.
Qed.

Lemma label_titles_fresh (title : string → string) `{!Inj (=) (=) title}
    (nodes : list string) (seen : fields) :
  NoDup nodes → Forall (λ n, title n ∉ seen.*1) nodes →
  fresh (title <$> nodes) seen.
Proof.
  intros Hnd Hun. split; [by apply NoDup_fmap_2 |].
  by apply Forall_fmap.
Qed.

(** ** Label editor *)

Section LabelEditor.
Variables (ask : string → string → string) (title : string → string).

Lemma labels_after_cons x nodes (labels : gmap string string) :
  labels_after ask title (x :: nodes) labels
  = labels_after ask title nodes
      (<[x := ask (title x) (label_or_id labels x)]> labels).
Proof. done. Qed.

Lemma labels_after_notin nodes (labels : gmap string string) n :
  n ∉ nodes → labels_after ask title nodes labels !! n = labels !! n.
Proof.
  revert labels.
  induction nodes as [|x nodes IH]; intros labels Hn; [done |].
  apply not_elem_of_cons in Hn as [Hne Hn]. rewrite labels_after_cons.
  rewrite IH by done. by apply lookup_insert_ne.
Qed.

Lemma labels_after_in nodes (labels : gmap string string) n :
  n ∈ nodes → is_Some (labels_after ask title nodes labels !! n).
Proof.
  revert labels.
  induction nodes as [|x nodes IH]; intros labels Hn.
  - by apply elem_of_nil in Hn.
  - rewrite labels_after_cons. destruct (decide (n ∈ nodes)) as [Hin | Hnin].
    + by apply IH.
    + apply elem_of_cons in Hn as [-> | Hn]; [| done].
      rewrite labels_after_notin by done. rewrite lookup_insert_eq.
      by eexists.
Qed.

Lemma labels_after_NoDup nodes (labels : gmap string string) n :
  NoDup nodes → n ∈ nodes →
  labels_after ask title nodes labels !! n
  = Some (ask (title n) (label_or_id labels n)).
Proof.
  intros Hnd. revert labels.
  induction Hnd as [|x nodes Hx Hnd IH]; intros labels Hn.
  - by apply elem_of_nil in Hn.
  - rewrite labels_after_cons.
    apply elem_of_cons in Hn as [-> | Hn].
    + rewrite labels_after_notin by done. apply lookup_insert_eq.
    + rewrite IH by done. unfold label_or_id.
      rewrite lookup_insert_ne; [done |]. by intros ->.
Qed.

Lemma labels_after_untouched nodes (labels : gmap string string) n :
  (∀ t v, ask t v = v) →
  label_or_id (labels_after ask title nodes labels) n = label_or_id labels n.
Proof.
  intros Hask. revert labels.
  induction nodes as [|x nodes IH]; intros labels; [done |].
  rewrite labels_after_cons, IH, Hask. unfold label_or_id.
  destruct (decide (x = n)) as [-> | Hne].
  - by rewrite lookup_insert_eq.
  - by rewrite lookup_insert_ne.
Qed.

Lemma edit_labels_cons x nodes (labels : gmap string string) seen :
  edit_labels ask title (x :: nodes) labels seen
  = (r ← text_input ask (title x) (label_or_id labels x) seen;
     edit_labels ask title nodes (<[x := r.1]> labels) r.2).
Proof.
  unfold edit_labels. simpl.
  by destruct (text_input ask (title x) (label_or_id labels x) seen).
Qed.

(** With fresh titles every field of the label loop is accepted. *)
Lemma edit_labels_fresh nodes (labels : gmap string string) seen :
  fresh (title <$> nodes) seen →
  ∃ seen', edit_labels ask title nodes labels seen
           = Ok (labels_after ask title nodes labels, seen')
    ∧ seen'.*1 = seen.*1 ++ (title <$> nodes).
Proof.
  revert labels seen.
  induction nodes as [|x nodes IH]; intros labels seen Hfresh.
  - exists seen. split; [done |]. simpl. by rewrite app_nil_r.
  - rewrite fmap_cons in Hfresh.
    apply (fresh_cons_inv _ _ _ (label_or_id labels x)) in Hfresh
      as [Hx Hfresh].
    rewrite edit_labels_cons, text_input_fresh by done. simpl.
    destruct (IH (<[x := ask (title x) (label_or_id labels x)]> labels) _
                Hfresh) as (seen' & -> & Hseen').
    exists seen'. split; [done |].
    rewrite Hseen', fmap_app, fmap_cons. simpl. by rewrite <- app_assoc.
Qed.

End LabelEditor.

(** X13.  One pass of the inner label editor over distinct node names,
    none of whose fields repeats a label used earlier in the run,
    returns and gives every node an entry in [inner_labels], namely the
    text its widget returns when offered the node's current label (or
    its name when it had none); entries of names that are not nodes,
    and every other field, are left as they were. *)
Theorem label_editor_pass (ask : string → string → string)
    (cfg : DiagramConfig) (seen : fields) :
  NoDup (inner_nodes cfg) →
  Forall (λ n, inner_label_title n ∉ seen.*1) (inner_nodes cfg) →
  ∃ cfg' seen',
    on_edit_inner_labels ask cfg seen = Ok (cfg', seen')
    ∧ (∀ n, n ∈ inner_nodes cfg →
          inner_labels cfg' !! n
          = Some (ask ("Label for inner node '" +:+ n +:+ "'")
                      (default n (inner_labels cfg !! n))))
    ∧ (∀ n, n ∉ inner_nodes cfg →
            inner_labels cfg' !! n = inner_labels cfg !! n)
    ∧ set_inner (inner_nodes cfg) (inner_labels cfg) cfg' = cfg.
Proof.
  intros Hnd Hun. unfold on_edit_inner_labels.
  destruct (edit_labels_fresh ask inner_label_title (inner_nodes cfg)
              (inner_labels cfg) seen) as (seen' & -> & _).
  { by apply (label_titles_fresh inner_label_title). }
  simpl. eexists _, _. split; [done |]. simpl. split_and!.
  - intros n Hn. by apply labels_after_NoDup.
  - intros n Hn. by apply labels_after_notin.
  - by destruct cfg.
Qed.

Lemma label_editor_pass_witness :
  let cfg := set_inner ["Knowledge"; "Models"; "Practice"]
               (inner_labels default_config) default_config in
  let seen := [("Inner nodes (comma-separated, order matters)",
                "Knowledge, Models, Practice")] in
  NoDup (inner_nodes cfg)
  ∧ Forall (λ n, inner_label_title n ∉ seen.*1) (inner_nodes cfg)
  ∧ ∃ cfg' seen',
      on_edit_inner_labels (λ _ v, v +:+ "!") cfg seen = Ok (cfg', seen')
      ∧ inner_labels cfg' !! "Practice" = Some "Practice!".
Proof.
  intros cfg seen.
  assert (Hnd : NoDup (inner_nodes cfg)).
  { apply (bool_decide_unpack _). vm_compute. exact I. }
  assert (Hun : Forall (λ n, inner_label_title n ∉ seen.*1) (inner_nodes cfg)).
  { apply (bool_decide_unpack _). vm_compute. exact I. }
  split; [exact Hnd |]. split; [exact Hun |].
  destruct (label_editor_pass (λ _ v, v +:+ "!") cfg seen Hnd Hun)
    as (cfg' & seen' & Hrun & Hin & _).
  exists cfg', seen'. split; [exact Hrun |].
  rewrite Hin by (apply (bool_decide_unpack _); vm_compute; exact I).
  vm_compute. reflexivity.
Defined.

(** X14.  When no label widget is touched, a pass of the two label
    editors over distinct names, with fields that repeat no label used
    earlier in the run, changes no displayed label ([labels.get(n, n)]
    is the same for every name), although it gives every node an
    explicit entry; on a layout that goes through, the graph built
    afterwards has the same nodes and the same edges as the graph built
    before. *)
Theorem label_editors_untouched `{Arith} (ask : string → string → string)
    (cfg : DiagramConfig) (seen_i seen_o : fields) :
  (∀ t v, ask t v = v) →
  NoDup (inner_nodes cfg) → NoDup (outer_nodes cfg) →
  Forall (λ n, inner_label_title n ∉ seen_i.*1) (inner_nodes cfg) →
  Forall (λ n, outer_label_title n ∉ seen_o.*1) (outer_nodes cfg) →
  layout_ok cfg →
  ∃ cfg1 seen1 cfg' seen',
    on_edit_inner_labels ask cfg seen_i = Ok (cfg1, seen1)
    ∧ on_edit_outer_labels ask cfg1 seen_o = Ok (cfg', seen')
    ∧ (∀ n, default n (inner_labels cfg' !! n)
            = default n (inner_labels cfg !! n))
    ∧ (∀ n, default n (outer_labels cfg' !! n)
            = default n (outer_labels cfg !! n))
    ∧ (∀ n, n ∈ inner_nodes cfg → is_Some (inner_labels cfg' !! n))
    ∧ (∀ n, n ∈ outer_nodes cfg → is_Some (outer_labels cfg' !! n))
    ∧ ∃ net net', build_network cfg = Ok (net, cfg)
        ∧ build_network cfg' = Ok (net', cfg')
        ∧ net_edges net' = net_edges net
        ∧ ∀ nd, nd ∈ net_nodes net' ↔ nd ∈ net_nodes net.
Proof.
  intros Hask Hndi Hndo Huni Huno Hfit.
  unfold on_edit_inner_labels.
  destruct (edit_labels_fresh ask inner_label_title (inner_nodes cfg)
              (inner_labels cfg) seen_i) as (seen1 & -> & _).
  { by apply (label_titles_fresh inner_label_title). }
  simpl. set (cfg1 := set_inner _ _ cfg).
  exists cfg1, seen1. unfold on_edit_outer_labels.
  change (outer_nodes cfg1) with (outer_nodes cfg).
  change (outer_labels cfg1) with (outer_labels cfg).
  destruct (edit_labels_fresh ask outer_label_title (outer_nodes cfg)
              (outer_labels cfg) seen_o) as (seen' & -> & _).
  { by apply (label_titles_fresh outer_label_title). }
  simpl. set (cfg' := set_outer _ _ cfg1).
  exists cfg', seen'. split; [done |]. split; [done |].
  assert (Hin : ∀ n, label_or_id (inner_labels cfg') n
                     = label_or_id (inner_labels cfg) n).
  { intros n. subst cfg' cfg1. simpl. by apply labels_after_untouched. }
  assert (Hout : ∀ n, label_or_id (outer_labels cfg') n
                      = label_or_id (outer_labels cfg) n).
  { intros n. subst cfg' cfg1. simpl. by apply labels_after_untouched. }
  split; [exact Hin |]. split; [exact Hout |].
  split; [intros n Hn; subst cfg' cfg1; simpl; by apply labels_after_in |].
  split; [intros n Hn; subst cfg' cfg1; simpl; by apply labels_after_in |].
  assert (Hfit' : layout_ok cfg') by exact Hfit.
  destruct (build_network_full cfg Hfit) as (net & Hrun & He & _ & _ & Hn).
  destruct (build_network_full cfg' Hfit')
    as (net' & Hrun' & He' & _ & _ & Hn').
  exists net, net'. split; [done |]. split; [done |]. split.
  - rewrite He, He'. subst cfg' cfg1. reflexivity.
  - intros nd. rewrite Hn, Hn'.
    assert (Ho : ∀ n xy, outer_node cfg' n xy = outer_node cfg n xy).
    { intros n xy. unfold outer_node. rewrite Hout. by subst cfg' cfg1. }
    assert (Hi : ∀ n xy, inner_node cfg' n xy = inner_node cfg n xy).
    { intros n xy. unfold inner_node. rewrite Hin. by subst cfg' cfg1. }
    assert (Hfields :
              outer_nodes cfg' = outer_nodes cfg
              ∧ inner_nodes cfg' = inner_nodes cfg
              ∧ outer_radius cfg' = outer_radius cfg
              ∧ inner_radius cfg' = inner_radius cfg
              ∧ start_angle_deg cfg' = start_angle_deg cfg)
      by (by subst cfg' cfg1).
    destruct Hfields as (-> & -> & -> & -> & ->).
    setoid_rewrite Ho. setoid_rewrite Hi. done.
Qed.

Lemma label_editors_untouched_witness :
  let ask := λ _ v : string, v in
  let seen_i := [("Inner nodes (comma-separated, order matters)",
                  "Knowledge, Models, Data, Objects, Interactions")] in
  let seen_o :=
    seen_i
    ++ ((λ n, (inner_label_title n,
               label_or_id (inner_labels default_config) n))
          <$> inner_nodes default_config)
    ++ ((λ t, (t, "")) <$> edge_titles (inner_nodes default_config))
    ++ [("Outer nodes (comma-separated, order matters)",
         "Concepts, Standards, Metadata, Formats, Protocols")] in
  (∀ t v : string, ask t v = v)
  ∧ NoDup (inner_nodes default_config) ∧ NoDup (outer_nodes default_config)
  ∧ Forall (λ n, inner_label_title n ∉ seen_i.*1) (inner_nodes default_config)
  ∧ Forall (λ n, outer_label_title n ∉ seen_o.*1) (outer_nodes default_config)
  ∧ layout_ok default_config
  ∧ ∃ cfg1 seen1 cfg' seen',
      on_edit_inner_labels ask default_config seen_i = Ok (cfg1, seen1)
      ∧ on_edit_outer_labels ask cfg1 seen_o = Ok (cfg', seen')
      ∧ ∀ n, default n (inner_labels cfg' !! n)
             = default n (inner_labels default_config !! n).
Proof.
  intros ask seen_i seen_o.
  assert (Hask : ∀ t v : string, ask t v = v) by done.
  assert (Hndi : NoDup (inner_nodes default_config)).
  { apply (bool_decide_unpack _). vm_compute. exact I. }
  assert (Hndo : NoDup (outer_nodes default_config)).
  { apply (bool_decide_unpack _). vm_compute. exact I. }
  assert (Huni : Forall (λ n, inner_label_title n ∉ seen_i.*1)
                   (inner_nodes default_config)).
  { apply (bool_decide_unpack _). vm_compute. exact I. }
  assert (Huno : Forall (λ n, outer_label_title n ∉ seen_o.*1)
                   (outer_nodes default_config)).
  { apply (bool_decide_unpack _). vm_compute. exact I. }
  assert (Hfit : layout_ok default_config).
  { apply (bool_decide_unpack _). vm_compute. exact I. }
  split; [exact Hask |]. split; [exact Hndi |]. split; [exact Hndo |].
  split; [exact Huni |]. split; [exact Huno |]. split; [exact Hfit |].
  destruct (label_editors_untouched (H := real_arith) ask default_config
              seen_i seen_o Hask Hndi Hndo Huni Huno Hfit)
    as (cfg1 & seen1 & cfg' & seen' & Hrun1 & Hrun2 & Hlab & _).
  exists cfg1, seen1, cfg', seen'.
  split; [exact Hrun1 |]. split; [exact Hrun2 | exact Hlab].
Defined.

(** ** Edge editor *)

Lemma offered_value (s : string) :
  (if PyStr.truthy s then s else "") = s.
Proof. by destruct s. Qed.

Lemma list_getitem_nat {X} (xs : list X) (i : nat) (x : X) :
  xs !! i = Some x → list_getitem xs (Z.of_nat i) = Ok x.
Proof.
  intros Hx. unfold list_getitem.
  rewrite (bool_decide_eq_true_2 (0 ≤ Z.of_nat i)%Z) by lia. cbv zeta iota.
  rewrite (bool_decide_eq_true_2 (0 ≤ Z.of_nat i)%Z) by lia.
  by rewrite Nat2Z.id, Hx.
Qed.

Section EdgeEditor.
Variable ask : string → string → string.

Lemma relabel_keys u v lbl es :
  edge_key <$> relabel u v lbl es = edge_key <$> es.
Proof.
  unfold relabel. rewrite <- list_fmap_compose. apply list_fmap_ext.
  intros i e _. simpl. by case_bool_decide.
Qed.

Lemma found_keys u v es : found u v es = true ↔ (u, v) ∈ edge_key <$> es.
Proof.
  unfold found. induction es as [|e es IH]; simpl.
  - split; [done | by intros ?%elem_of_nil].
  - rewrite orb_true_iff, IH, elem_of_cons, bool_decide_eq_true.
    unfold stored_as, edge_key. destruct e as [s t l]. simpl.
    split; (intros [H | H]; [left | by right]).
    + destruct H as [-> ->]. done.
    + by injection H as -> ->.
Qed.

Lemma pair_after_keys u v es :
  edge_key <$> pair_after ask u v es
  = (edge_key <$> es) ++ (if found u v es then [] else [(u, v)]).
Proof.
  unfold pair_after, update_or_insert. cbv zeta. destruct (found u v es).
  - by rewrite relabel_keys, app_nil_r.
  - by rewrite fmap_app, relabel_keys.
Qed.

Lemma pair_after_has u v es : (u, v) ∈ edge_key <$> pair_after ask u v es.
Proof.
  rewrite pair_after_keys. destruct (found u v es) eqn:Hf.
  - rewrite app_nil_r. by apply found_keys.
  - apply elem_of_app. right. apply list_elem_of_here.
Qed.

Lemma pairs_after_cons p ps es :
  pairs_after ask (p :: ps) es = pairs_after ask ps (pair_after ask p.1 p.2 es).
Proof. done. Qed.


Lemma pairs_after_grow ps es :
  ∃ added, edge_key <$> pairs_after ask ps es = (edge_key <$> es) ++ added
    ∧ length added ≤ length ps.
Proof.
  revert es. induction ps as [|[u v] ps IH]; intros es.
  - exists []. by rewrite app_nil_r.
  - rewrite pairs_after_cons. simpl.
    destruct (IH (pair_after ask u v es)) as (added & -> & Hlen).
    rewrite pair_after_keys, <- app_assoc. eexists. split; [done |].
    rewrite length_app. destruct (found u v es); simpl; lia.
Qed.

Lemma pairs_after_complete ps es p :
  p ∈ ps → p ∈ edge_key <$> pairs_after ask ps es.
Proof.
  revert es. induction ps as [|[u v] ps IH]; intros es Hp.
  - by apply elem_of_nil in Hp.
  - rewrite pairs_after_cons. simpl.
    apply elem_of_cons in Hp as [-> | Hp]; [| by apply IH].
    destruct (pairs_after_grow ps (pair_after ask u v es)) as (added & -> & _).
    apply elem_of_app. left. apply pair_after_has.
Qed.

Lemma pairs_after_saturated ps es :
  (∀ p, p ∈ ps → p ∈ edge_key <$> es) →
  edge_key <$> pairs_after ask ps es = edge_key <$> es.
Proof.
  revert es. induction ps as [|[u v] ps IH]; intros es Hall; [done |].
  rewrite pairs_after_cons. simpl.
  assert (Hk : edge_key <$> pair_after ask u v es = edge_key <$> es).
  { rewrite pair_after_keys.
    rewrite (proj2 (found_keys u v es)); [by rewrite app_nil_r |].
    apply Hall, list_elem_of_here. }
  rewrite IH; [done |].
  intros p Hp. rewrite Hk. by apply Hall, list_elem_of_further.
Qed.

Lemma edit_pair_fresh u v es (seen : fields) :
  edge_title u v ∉ seen.*1 →
  edit_pair ask u v es seen
  = Ok (pair_after ask u v es,
        seen ++ [(edge_title u v, last_label u v es)]).
Proof.
  intros Ht. unfold edit_pair, pair_after. cbv zeta.
  rewrite offered_value, text_input_fresh by done. done.
Qed.

Lemma edit_edge_fresh nodes es (seen : fields) i :
  i < length nodes →
  let u := nodes !!! i in
  let v := nodes !!! Z.to_nat ((Z.of_nat i + 1)
                               `mod` Z.of_nat (length nodes)) in
  edge_title u v ∉ seen.*1 →
  edit_edge ask nodes (es, seen) i
  = Ok (pair_after ask u v es,
        seen ++ [(edge_title u v, last_label u v es)]).
Proof.
  intros Hi u v Ht. unfold edit_edge.
  destruct (lookup_lt_is_Some_2 nodes i Hi) as [u' Hu].
  rewrite (list_getitem_nat _ _ _ Hu). simpl.
  destruct (list_getitem_mod nodes i 1 Hi) as [-> _]. simpl.
  assert (u' = u) as ->.
  { subst u. by rewrite (list_lookup_total_correct _ _ _ Hu). }
  by apply edit_pair_fresh.
Qed.

(** With fresh titles every field of the edge loop is accepted, and the
    loop is the walk over the forward pairs. *)
Lemma edit_edges_fresh nodes es (seen : fields) :
  fresh (edge_titles nodes) seen →
  ∃ seen', edit_edges ask nodes es seen
           = Ok (pairs_after ask (forward_pairs nodes) es, seen')
    ∧ seen'.*1 = seen.*1 ++ edge_titles nodes.
Proof.
  unfold edit_edges, edge_titles, forward_pairs.
  assert (Hall : Forall (λ i, i < length nodes) (seq 0 (length nodes))).
  { apply Forall_forall. intros i Hi%elem_of_seq. lia. }
  revert es seen Hall. generalize (seq 0 (length nodes)) as idxs.
  induction idxs as [|i idxs IH]; intros es seen Hall Hfresh.
  - exists seen. split; [done |]. simpl. by rewrite app_nil_r.
  - apply Forall_cons in Hall as [Hi Hall].
    rewrite !fmap_cons in Hfresh. cbn [fst snd] in Hfresh.
    set (u := nodes !!! i) in *.
    set (v := nodes !!! Z.to_nat ((Z.of_nat i + 1)
                                  `mod` Z.of_nat (length nodes))) in *.
    apply (fresh_cons_inv _ _ _ (last_label u v es)) in Hfresh
      as [Ht Hfresh].
    cbn [foldM]. rewrite (edit_edge_fresh nodes es seen i Hi Ht). simpl.
    destruct (IH (pair_after ask u v es) _ Hall Hfresh)
      as (seen' & Heq & Hseen').
    exists seen'. split; [exact Heq |].
    rewrite Hseen', fmap_app. simpl. by rewrite <- app_assoc.
Qed.

End EdgeEditor.



(** Two runs in which a field repeats an earlier one: a ring that walks
    the same pair twice, and two rings that share a pair. *)
Example repeated_pair_stops_editor :
  on_edit_inner_edges (λ _ v, v)
    (set_inner_edges [] (set_inner ["A"; "B"; "A"; "B"] ∅ default_config)) []
  = Raise DuplicateWidgetID.
Proof. vm_compute. reflexivity. Qed.

Example shared_pair_stops_editors :
  let cfg := set_outer_edges []
               (set_inner_edges []
                  (set_outer ["A"; "B"; "D"] ∅
                     (set_inner ["A"; "B"; "C"] ∅ default_config))) in
  (st ← on_edit_inner_edges (λ _ v, v) cfg [];
   on_edit_outer_edges (λ _ v, v) st.1 st.2)
  = Raise DuplicateWidgetID.
Proof. vm_compute. reflexivity. Qed.



(** X16.  After one pass of an edge editor a second pass, in a later
    run, appends nothing, whatever the widgets return: the stored edges
    keep their number, order and endpoints.  In both runs the fields
    have pairwise distinct labels, none used earlier in the run. *)
Theorem edge_editor_second_pass (ask ask' : string → string → string)
    (cfg : DiagramConfig) (seen seen2 : fields) :
  fresh (edge_titles (outer_nodes cfg)) seen →
  fresh (edge_titles (outer_nodes cfg)) seen2 →
  ∃ cfg1 seen1 cfg2 seen2',
    on_edit_outer_edges ask cfg seen = Ok (cfg1, seen1)
    ∧ on_edit_outer_edges ask' cfg1 seen2 = Ok (cfg2, seen2')
    ∧ (λ e, (source e, target e)) <$> outer_edges cfg2
      = (λ e, (source e, target e)) <$> outer_edges cfg1.
Proof.
  intros Hfresh Hfresh2. unfold on_edit_outer_edges.
  destruct (edit_edges_fresh ask (outer_nodes cfg) (outer_edges cfg) seen
              Hfresh) as (seen1 & -> & _).
  simpl. set (cfg1 := set_outer_edges _ cfg). exists cfg1, seen1.
  change (outer_nodes cfg1) with (outer_nodes cfg).
  destruct (edit_edges_fresh ask' (outer_nodes cfg) (outer_edges cfg1) seen2
              Hfresh2) as (seen2' & -> & _).
  simpl. eexists _, seen2'. split; [done |]. split; [done |]. simpl.
  apply (pairs_after_saturated ask').
  intros p Hp. by apply pairs_after_complete.
Qed.

Lemma edge_editor_second_pass_witness :
  let seen :=
    ("Inner nodes (comma-separated, order matters)",
     "Knowledge, Models, Data, Objects, Interactions")
    :: ((λ n, (inner_label_title n,
               label_or_id (inner_labels default_config) n))
          <$> inner_nodes default_config)
    ++ ((λ t, (t, "")) <$> edge_titles (inner_nodes default_config))
    ++ ("Outer nodes (comma-separated, order matters)",
        "Concepts, Standards, Metadata, Formats, Protocols")
       :: ((λ n, (outer_label_title n,
                  label_or_id (outer_labels default_config) n))
             <$> outer_nodes default_config) in
  fresh (edge_titles (outer_nodes default_config)) seen
  ∧ ∃ cfg1 seen1 cfg2 seen2,
      on_edit_outer_edges (λ _ _, "a") default_config seen = Ok (cfg1, seen1)
      ∧ on_edit_outer_edges (λ _ _, "b") cfg1 seen = Ok (cfg2, seen2)
      ∧ length (outer_edges cfg2) = length (outer_edges cfg1).
Proof.
  intros seen.
  assert (Hfresh : fresh (edge_titles (outer_nodes default_config)) seen).
  { apply (bool_decide_unpack _). vm_compute. exact I. }
  split; [exact Hfresh |].
  destruct (edge_editor_second_pass (λ _ _, "a") (λ _ _, "b") default_config
              seen seen Hfresh Hfresh)
    as (cfg1 & seen1 & cfg2 & seen2 & Hrun1 & Hrun2 & Hkeys).
  exists cfg1, seen1, cfg2, seen2.
  split; [exact Hrun1 |]. split; [exact Hrun2 |].
  apply (f_equal length) in Hkeys. by rewrite !length_fmap in Hkeys.
Defined.

(** ** Which edits reach the graph *)




Section EditsAndLabels.
Variable ask : string → string → string.









End EditsAndLabels.







(** ** The node text fields *)

Lemma contains_comma_cons c n :
  PyStr.contains "," (String c n) = false →
  Ascii.eqb c "," = false ∧ PyStr.contains "," n = false.
Proof.
  unfold PyStr.contains. cbn [PyStr.partition PyStr.strip_prefix].
  rewrite (Ascii.eqb_sym "," c).
  destruct (Ascii.eqb c ","); [by destruct n |].
  by destruct (PyStr.partition "," n) as [[a b] |].
Qed.

Lemma split_comma_cons_clean a rest :
  PyStr.contains "," a = false →
  PyStr.split_comma (a +:+ "," +:+ rest) = a :: PyStr.split_comma rest.
Proof.
  induction a as [|c a IH]; intros Ha; [done |].
  apply contains_comma_cons in Ha as [Hc Ha]. simpl. rewrite Hc.
  fold (a +:+ "," +:+ rest). by rewrite (IH Ha).
Qed.

Lemma split_comma_single a :
  PyStr.contains "," a = false → PyStr.split_comma a = [a].
Proof.
  induction a as [|c a IH]; intros Ha; [done |].
  apply contains_comma_cons in Ha as [Hc Ha]. simpl.
  by rewrite Hc, (IH Ha).
Qed.

Lemma contains_comma_space n :
  PyStr.contains "," n = false → PyStr.contains "," (String " " n) = false.
Proof.
  unfold PyStr.contains. cbn [PyStr.partition PyStr.strip_prefix].
  change (Ascii.eqb "," " ") with false. cbv iota.
  by destruct (PyStr.partition "," n) as [[a b] |].
Qed.

Lemma strip_leading_space n :
  PyStr.starts_cont n = false → PyStr.strip (String " " n) = PyStr.strip n.
Proof.
  intros Hn. unfold PyStr.strip. cbn [PyStr.chars]. rewrite Hn.
  by change (PyStr.drop_spaces (" " :: PyStr.chars n))
       with (PyStr.drop_spaces (PyStr.chars n)).
Qed.

Lemma string_append_assoc (a b c : string) :
  a +:+ (b +:+ c) = (a +:+ b) +:+ c.
Proof.
  induction a as [|x a IH]; [done |].
  change (String x (a +:+ (b +:+ c)) = String x ((a +:+ b) +:+ c)).
  by rewrite IH.
Qed.

Lemma parse_join_from (pre : string) names :
  pre = "" ∨ pre = " " → names ≠ [] → Forall clean_name names →
  parse_names (pre +:+ join_names names) = names.
Proof.
  intros Hpre Hne Hclean. revert pre Hpre.
  induction Hclean as [|n rest (Hn & Hcomma & Hstrip & Hcont) Hrest IH];
    [done |].
  intros pre Hpre.
  assert (Hkeep : PyStr.strip (pre +:+ n) = n).
  { destruct Hpre as [-> | ->]; [done |].
    change (" " +:+ n) with (String " " n). by rewrite strip_leading_space. }
  assert (Hpre_comma : PyStr.contains "," (pre +:+ n) = false).
  { destruct Hpre as [-> | ->]; [done |].
    change (" " +:+ n) with (String " " n). by apply contains_comma_space. }
  assert (Htruthy : PyStr.truthy n = true) by (by destruct n).
  destruct rest as [|n' rest'].
  - simpl join_names. unfold parse_names.
    rewrite (split_comma_single _ Hpre_comma). simpl.
    by rewrite Hkeep, Htruthy.
  - change (join_names (n :: n' :: rest'))
      with (n +:+ "," +:+ (" " +:+ join_names (n' :: rest'))).
    rewrite string_append_assoc. unfold parse_names.
    rewrite (split_comma_cons_clean _ _ Hpre_comma). simpl omap.
    rewrite Hkeep, Htruthy. f_equal.
    apply (IH ltac:(done) " "). by right.
Qed.

Lemma parse_join names :
  Forall clean_name names → parse_names (join_names names) = names.
Proof.
  intros Hclean. destruct names as [|n rest]; [done |].
  change (join_names (n :: rest)) with ("" +:+ join_names (n :: rest)).
  by apply parse_join_from; [left | |].
Qed.

(** X19.  The node text fields round-trip.  Each field shows
    [", ".join(nodes)]; when every name is non-empty, has no comma and no
    surrounding whitespace, the update handler parses the shown text
    back to the same list, so pressing "Update" with the field untouched
    keeps the node order (also below three names, where the update is
    refused), keeps the label displayed for every node, and changes no
    other field.  The same holds for the outer field. *)
Theorem node_field_round_trip (cfg : DiagramConfig) :
  Forall clean_name (inner_nodes cfg) →
  Forall clean_name (outer_nodes cfg) →
  let cfg1 := (on_update_inner (join_names (inner_nodes cfg)) cfg).1 in
  let cfg2 := (on_update_outer (join_names (outer_nodes cfg)) cfg).1 in
  (parse_names (join_names (inner_nodes cfg)) = inner_nodes cfg
   ∧ inner_nodes cfg1 = inner_nodes cfg
   ∧ (∀ n, n ∈ inner_nodes cfg →
         label_or_id (inner_labels cfg1) n = label_or_id (inner_labels cfg) n)
   ∧ set_inner (inner_nodes cfg) (inner_labels cfg) cfg1 = cfg)
  ∧ (parse_names (join_names (outer_nodes cfg)) = outer_nodes cfg
     ∧ outer_nodes cfg2 = outer_nodes cfg
     ∧ (∀ n, n ∈ outer_nodes cfg →
           label_or_id (outer_labels cfg2) n
           = label_or_id (outer_labels cfg) n)
     ∧ set_outer (outer_nodes cfg) (outer_labels cfg) cfg2 = cfg).
Proof.
  intros Hin Hout cfg1 cfg2. subst cfg1 cfg2.
  unfold on_update_inner, on_update_outer. cbv zeta.
  rewrite (parse_join _ Hin), (parse_join _ Hout).
  split.
  - split; [done |]. case_bool_decide; simpl.
    + split; [done |]. split; [| by destruct cfg].
      intros n Hn. unfold label_or_id at 1.
      by rewrite keep_labels_lookup, decide_True.
    + split; [done |]. split; [done | by destruct cfg].
  - split; [done |]. case_bool_decide; simpl.
    + split; [done |]. split; [| by destruct cfg].
      intros n Hn. unfold label_or_id at 1.
      by rewrite keep_labels_lookup, decide_True.
    + split; [done |]. split; [done | by destruct cfg].
Qed.

Lemma node_field_round_trip_witness :
  join_names (inner_nodes default_config)
  = "Knowledge, Models, Data, Objects, Interactions"
  ∧ parse_names "Knowledge, Models, Data, Objects, Interactions"
    = inner_nodes default_config
  ∧ inner_nodes
      (on_update_inner (join_names (inner_nodes default_config))
         default_config).1
    = inner_nodes default_config.
Proof.
  assert (Hin : Forall clean_name (inner_nodes default_config)).
  { repeat (apply Forall_cons; split;
            [split; [discriminate | repeat split; reflexivity] |]).
    constructor. }
  assert (Hout : Forall clean_name (outer_nodes default_config)).
  { repeat (apply Forall_cons; split;
            [split; [discriminate | repeat split; reflexivity] |]).
    constructor. }
  destruct (node_field_round_trip default_config Hin Hout)
    as ((Hparse & Hnodes & _) & _).
  split; [reflexivity |]. split; [exact Hparse | exact Hnodes].
Defined.

(** ** What an import reads *)

(** X20.  [from_json] reads the loaded object through the thirteen field
    names only: two documents whose objects agree on those members give
    the same outcome, the same configuration or the same exception.
    Members of any other name are ignored and the order of the members
    does not matter. *)
Theorem from_json_reads_known_members `{Codec} (s1 s2 : text)
    (kvs1 kvs2 : list (string * json)) :
  json_loads s1 = Ok (JObj kvs1) →
  json_loads s2 = Ok (JObj kvs2) →
  (∀ k, k ∈ known_fields → member k kvs1 = member k kvs2) →
  from_json s1 = from_json s2.
Proof.
  intros Hs1 Hs2 Hsame.
  unfold from_json, Dyn.from_json. rewrite Hs1, Hs2.
  unfold getitem, get. simpl.
  assert (Hk : Forall (λ k, member k kvs1 = member k kvs2) known_fields).
  { apply Forall_forall. exact Hsame. }
  unfold known_fields, required_fields in Hk. simpl in Hk.
  repeat (apply Forall_cons in Hk as [-> Hk]).
  done.
Qed.

Lemma from_json_reads_known_members_witness :
  let kvs1 := [("inner_nodes", JArr [JStr "a"]); ("inner_labels", JObj []);
               ("inner_edges", JArr []); ("outer_nodes", JArr [JStr "b"]);
               ("outer_labels", JObj []); ("outer_edges", JArr []);
               ("physics", JBool true)] in
  let kvs2 := ("note", JStr "draft") :: rev kvs1 in
  is_Ok (from_json (Document (JObj kvs1)))
  ∧ from_json (Document (JObj kvs1)) = from_json (Document (JObj kvs2)).
Proof.
  intros kvs1 kvs2.
  assert (Hs1 : json_loads (Document (JObj kvs1)) = Ok (JObj kvs1))
    by reflexivity.
  assert (Hs2 : json_loads (Document (JObj kvs2)) = Ok (JObj kvs2))
    by reflexivity.
  assert (Hsame : ∀ k, k ∈ known_fields → member k kvs1 = member k kvs2).
  { intros k Hk. unfold known_fields, required_fields in Hk. simpl in Hk.
    repeat (apply elem_of_cons in Hk as [-> | Hk]; [reflexivity |]).
    by apply elem_of_nil in Hk. }
  split; [eexists; reflexivity |].
  exact (from_json_reads_known_members (H := document_codec)
           (Document (JObj kvs1)) (Document (JObj kvs2)) kvs1 kvs2
           Hs1 Hs2 Hsame).
Defined.
